(** * FireSim top-level simulation driver: [firesim_top_t]

    A shallow embedding of [sim/src/main/cc/firesim/firesim_top.cc]:
    the constructor (startup arguments, bridge and model registration,
    the built-in profiling task), [simulation_complete], [profile_models],
    [exit_code] and [run], together with the properties of the control
    loop, the verdict and the report that the design document states. *)

From Stdlib Require Import ZArith List Bool String Ascii Lia Sorted.
From Stdlib Require Import Floats.SpecFloat.
Import ListNotations.

Local Open Scope Z_scope.

(** ** C strings: [std::string::find], [c_str() + n], [atoi] *)

Module CStr.

(** [arg.find(p) == 0]: the first occurrence of [p] is at offset 0. *)
Definition starts_with (p arg : string) : bool := String.prefix p arg.

(** [arg.c_str() + n]: the suffix after the first [n] characters. *)
Fixpoint c_str_plus (n : nat) (s : string) : string :=
  match n, s with
  | O, _ => s
  | S k, String _ r => c_str_plus k r
  | S _, EmptyString => EmptyString
  end.

(** [isspace] in the C locale: space, and the controls 9 to 13. *)
Definition isspace (c : ascii) : bool :=
  let n := Z.of_nat (nat_of_ascii c) in
  (n =? 32) || ((9 <=? n) && (n <=? 13)).

Definition digit_val (c : ascii) : option Z :=
  let n := Z.of_nat (nat_of_ascii c) in
  if (48 <=? n) && (n <=? 57) then Some (n - 48) else None.

Fixpoint skip_spaces (s : string) : string :=
  match s with
  | String c r => if isspace c then skip_spaces r else s
  | EmptyString => s
  end.

Fixpoint atoi_digits (acc : Z) (s : string) : Z :=
  match s with
  | String c r =>
      match digit_val c with
      | Some d => atoi_digits (10 * acc + d) r
      | None => acc
      end
  | EmptyString => acc
  end.

(** [strtol(s, NULL, 10)]: leading white space, an optional sign, then
    decimal digits up to the first character that is not one; a value
    outside [long] (64 bits) is replaced by [LONG_MAX] or [LONG_MIN]. *)
Definition LONG_MAX : Z := 2 ^ 63 - 1.
Definition LONG_MIN : Z := - 2 ^ 63.

Definition strtol (s : string) : Z :=
  let v := match skip_spaces s with
           | String "-"%char r => - atoi_digits 0 r
           | String "+"%char r => atoi_digits 0 r
           | t => atoi_digits 0 t
           end in
  Z.max LONG_MIN (Z.min LONG_MAX v).

(** The conversion of a [long] to [int]: the low 32 bits, read as a two's
    complement number. *)
Definition to_int (v : Z) : Z := (v + 2 ^ 31) mod 2 ^ 32 - 2 ^ 31.

(** [atoi]: the result is an [int].  C leaves it undefined when the
    number written is outside the range of [int]; the C library the
    simulator is built with computes [(int) strtol(s, NULL, 10)], which is
    what is kept here. *)
Definition atoi (s : string) : Z := to_int (strtol s).

End CStr.

(** ** The orchestrator object *)

(** The conversion to [uint64_t]: the value modulo 2^64. *)
Definition to_uint64 (z : Z) : Z := z mod 2 ^ 64.

(** Bridge drivers and FPGA models are held by pointer in two vectors; a
    handle names the object, its state lives in the world (see [Simif]). *)
Definition bridge_ptr := nat.
Definition model_ptr := nat.

(** The callbacks given to [register_task].  The source registers one
    closure, [[this](){ return this->profile_models(); }]. *)
Inductive task_t : Type :=
| ProfileModelsTask.

(** Modelled from the spec: the task table of the periodic task scheduler
    (class [systematic_scheduler_t], whose header and implementation are
    not in [firesim_top.cc]).  Section 9 of the design describes a task as
    {callback, countdown, active}; the countdown is in steps. *)
Record task_tuple_t : Type := mk_task {
  task : task_t;
  countdown : Z;
  active : bool
}.

(** Modelled from the spec: the declarations of the fields, which are in
    [firesim_top.h], [systematic_scheduler.h] and [simif.h].  The record
    holds the fields of [firesim_top_t] that [firesim_top.cc] reads or
    writes; [max_cycles] and [profile_interval] are integers with -1 as the
    unbounded/disabled value, [do_zero_out_dram] starts false, and [pass] is
    the flag [expect] clears. *)
Record firesim_top_t : Type := mk_top {
  max_cycles : Z;
  profile_interval : Z;
  do_zero_out_dram : bool;
  bridges : list bridge_ptr;
  fpga_models : list model_ptr;
  tasks : list task_tuple_t;
  pass : bool
}.

Definition set_max_cycles (v : Z) (t : firesim_top_t) : firesim_top_t :=
  mk_top v (profile_interval t) (do_zero_out_dram t) (bridges t)
         (fpga_models t) (tasks t) (pass t).

Definition set_profile_interval (v : Z) (t : firesim_top_t) : firesim_top_t :=
  mk_top (max_cycles t) v (do_zero_out_dram t) (bridges t)
         (fpga_models t) (tasks t) (pass t).

Definition set_do_zero_out_dram (v : bool) (t : firesim_top_t) : firesim_top_t :=
  mk_top (max_cycles t) (profile_interval t) v (bridges t)
         (fpga_models t) (tasks t) (pass t).

Definition set_bridges (v : list bridge_ptr) (t : firesim_top_t) : firesim_top_t :=
  mk_top (max_cycles t) (profile_interval t) (do_zero_out_dram t) v
         (fpga_models t) (tasks t) (pass t).

Definition set_fpga_models (v : list model_ptr) (t : firesim_top_t) : firesim_top_t :=
  mk_top (max_cycles t) (profile_interval t) (do_zero_out_dram t) (bridges t)
         v (tasks t) (pass t).

Definition set_tasks (v : list task_tuple_t) (t : firesim_top_t) : firesim_top_t :=
  mk_top (max_cycles t) (profile_interval t) (do_zero_out_dram t) (bridges t)
         (fpga_models t) v (pass t).

Definition set_pass (v : bool) (t : firesim_top_t) : firesim_top_t :=
  mk_top (max_cycles t) (profile_interval t) (do_zero_out_dram t) (bridges t)
         (fpga_models t) (tasks t) v.

(** The startup configuration: the three settings the constructor reads
    from the command line. *)
Definition same_config (a b : firesim_top_t) : Prop :=
  max_cycles a = max_cycles b /\
  profile_interval a = profile_interval b /\
  do_zero_out_dram a = do_zero_out_dram b.

(** ** The constructor *)

(** One iteration of [for (auto &arg: args)]: three independent tests. *)
Definition parse_arg (t : firesim_top_t) (arg : string) : firesim_top_t :=
  let t1 := if CStr.starts_with "+max-cycles=" arg
            then set_max_cycles (CStr.atoi (CStr.c_str_plus 12 arg)) t
            else t in
  let t2 := if CStr.starts_with "+profile-interval=" arg
            then set_profile_interval (CStr.atoi (CStr.c_str_plus 18 arg)) t1
            else t1 in
  if CStr.starts_with "+zero-out-dram" arg
  then set_do_zero_out_dram true t2
  else t2.

(** [add_bridge_driver(new ...)] and [fpga_models.push_back(new ...)]. *)
Definition add_bridge_driver (b : bridge_ptr) (t : firesim_top_t) : firesim_top_t :=
  set_bridges (bridges t ++ [b]) t.

Definition push_back_model (m : model_ptr) (t : firesim_top_t) : firesim_top_t :=
  set_fpga_models (fpga_models t ++ [m]) t.

(** Modelled from the spec: [register(callback, initial_interval)] adds a
    task (the scheduler's [register_task] is not in [firesim_top.cc]). *)
Definition register_task (c : task_t) (first : Z) (t : firesim_top_t) : firesim_top_t :=
  set_tasks (tasks t ++ [mk_task c first true]) t.

(** The conditionally compiled registrations ([#ifdef ..._PRESENT]) of one
    build, in the order of the source text. *)
Inductive registration : Type :=
| RegBridge (b : bridge_ptr)
| RegModel (m : model_ptr).

Definition register (t : firesim_top_t) (r : registration) : firesim_top_t :=
  match r with
  | RegBridge b => add_bridge_driver b t
  | RegModel m => push_back_model m t
  end.

Definition registered_bridges (build : list registration) : list bridge_ptr :=
  flat_map (fun r => match r with RegBridge b => [b] | RegModel _ => [] end) build.

Definition registered_models (build : list registration) : list model_ptr :=
  flat_map (fun r => match r with RegModel m => [m] | RegBridge _ => [] end) build.

(** The object before the constructor body runs. *)
Definition top_initial : firesim_top_t :=
  mk_top (-1) (-1) false [] [] [] true.

(** The body of [firesim_top_t::firesim_top_t(int argc, char** argv)],
    from the declaration of [max_cycles] on, for the vector [args]. *)
Definition firesim_top_body (args : list string) (build : list registration)
  : firesim_top_t :=
  let t0 := set_max_cycles (-1) top_initial in
  let t1 := set_profile_interval (max_cycles t0) t0 in
  let t2 := fold_left parse_arg args t1 in
  let t3 := fold_left register build t2 in
  if negb (profile_interval t3 =? -1)
  then register_task ProfileModelsTask 0 t3
  else t3.

(** [firesim_top_t::firesim_top_t(int argc, char** argv)]:
    [std::vector<std::string> args(argv + 1, argv + argc)] is the command
    line without the program name.  With [argc = 0] the range is not a
    valid one and the behaviour is undefined: [None]. *)
Definition firesim_top_ctor (argv : list string) (build : list registration)
  : option firesim_top_t :=
  match argv with
  | [] => None
  | _ :: args => Some (firesim_top_body args build)
  end.

(** ** IEEE 754 binary64, for the speed and ratio lines of the report *)

Definition double : Type := spec_float.

(** [(double) n] for an integer [n], rounding to nearest even. *)
Definition double_of_Z (n : Z) : double := binary_normalize 53 1024 n 0 false.
Definition dmul : double -> double -> double := SFmul 53 1024.
Definition ddiv : double -> double -> double := SFdiv 53 1024.
(** [a > b] on doubles; false when either side is a NaN. *)
Definition dgt (a b : double) : bool := SFltb b a.

(** ** What the run does to the outside: calls and report lines *)

Inductive message : Type :=
| MsgZeroing                                (* "Zeroing out FPGA DRAM. ..." *)
| MsgCommencing                             (* "Commencing simulation." *)
| MsgNewline                                (* "\n" after the target's output *)
| MsgFailedCode (exitcode end_cycle : Z)    (* "*** FAILED *** (code = %d) after %llu cycles" *)
| MsgFailedTimeout (end_cycle : Z)          (* "*** FAILED *** (timeout) after %llu cycles" *)
| MsgPassed (end_cycle : Z)                 (* "*** PASSED *** after %llu cycles" *)
| MsgSpeedMHz (sim_time speed : double)     (* "... simulation speed = %.2f MHz" *)
| MsgSpeedKHz (sim_time speed : double)     (* "... simulation speed = %.2f KHz" *)
| MsgFMR (fmr : double).                    (* "FPGA-Cycles-to-Model-Cycles Ratio (FMR): %.2f" *)

Inductive event : Type :=
| EvModelInit (m : model_ptr)
| EvBridgeInit (b : bridge_ptr)
| EvZeroOutDram
| EvPrint (msg : message)
| EvTargetReset (n : Z)
| EvModelProfile (m : model_ptr)
| EvStep (n : Z)
| EvBridgeTick (b : bridge_ptr)
| EvExpect (ok : bool)
| EvModelFinish (m : model_ptr)
| EvBridgeFinish (b : bridge_ptr).

(** ** A state, trace and fuel monad *)

Module Run.

(** A computation returns a value, the next state and the calls it made,
    oldest first; [None] is a loop that ran out of fuel. *)
Definition M (St A : Type) : Type := St -> option (A * St * list event).

Definition ret {St A} (a : A) : M St A := fun s => Some (a, s, []).

Definition bind {St A B} (m : M St A) (k : A -> M St B) : M St B :=
  fun s =>
    match m s with
    | None => None
    | Some (a, s1, t1) =>
        match k a s1 with
        | None => None
        | Some (b, s2, t2) => Some (b, s2, t1 ++ t2)
        end
    end.

Definition out_of_fuel {St A} : M St A := fun _ => None.

End Run.

Export Run.

Declare Scope run_scope.
Delimit Scope run_scope with run.
Notation "x <- m ;; k" := (bind m (fun x => k))
  (at level 61, m at next level, right associativity) : run_scope.
Notation "m ;; k" := (bind m (fun _ => k))
  (at level 61, right associativity) : run_scope.
Local Open Scope run_scope.

(** [for (auto &e: l) f(e);] *)
Fixpoint for_each {St A} (f : A -> M St unit) (l : list A) : M St unit :=
  match l with
  | [] => ret tt
  | e :: r => f e ;; for_each f r
  end.

(** [while (cond) body] *)
Fixpoint while_ {St} (fuel : nat) (cond : M St bool) (body : M St unit) : M St unit :=
  match fuel with
  | O => out_of_fuel
  | S f => c <- cond ;; if c then body ;; while_ f cond body else ret tt
  end.

(** ** The collaborators of the orchestrator

    [World] is everything outside the fields of [firesim_top_t]: the
    objects behind the bridge and model pointers, the FPGA and the host
    clock.  The virtual methods of [bridge_driver_t] and [FpgaModel] and
    the primitives of [simif_t] are declared in headers, outside
    [firesim_top.cc]; they are the parameters of the development.  Commands
    change the world; [terminate] and [exit_code] are read-only (section
    4.1 of the design: a side-effect-free predicate and a status value);
    reads of the platform (registers, the clock) may change the world. *)
Class Simif (World : Type) : Type := {
  (* bridge_driver_t *)
  bd_init : bridge_ptr -> World -> World;
  bd_tick : bridge_ptr -> World -> World;
  bd_terminate : bridge_ptr -> World -> bool;
  bd_exit_code : bridge_ptr -> World -> Z;
  bd_finish : bridge_ptr -> World -> World;
  (* FpgaModel *)
  fm_init : model_ptr -> World -> World;
  fm_profile : model_ptr -> World -> World;
  fm_finish : model_ptr -> World -> World;
  (* simif_t *)
  sim_zero_out_dram : World -> World;
  sim_target_reset : Z -> World -> World;
  sim_step : Z -> bool -> World -> World;
  sim_done : World -> bool * World;
  sim_hcycle : World -> Z * World;
  sim_actual_tcycle : World -> Z * World;
  sim_timestamp : World -> Z * World;
  sim_diff_secs : Z -> Z -> double;
  (* systematic_scheduler_t: the timeout predicate on [max_cycles] and the
     largest step the platform allows, given the task table *)
  sched_has_timed_out : Z -> World -> bool;
  sched_largest_stepsize : list task_tuple_t -> World -> Z
}.

Section Orchestrator.

Context {World : Type} {P : Simif World}.

(** The state of a run: the orchestrator's fields and the world. *)
Record state : Type := mk_state {
  self : firesim_top_t;
  world : World
}.

Definition M (A : Type) : Type := Run.M state A.

(** Read a field of [*this]. *)
Definition gets {A} (f : firesim_top_t -> A) : M A :=
  fun s => Some (f (self s), s, []).

(** Update [*this]. *)
Definition modify (f : firesim_top_t -> firesim_top_t) : M unit :=
  fun s => Some (tt, mk_state (f (self s)) (world s), []).

(** A call that changes the world and is recorded. *)
Definition call (e : event) (f : World -> World) : M unit :=
  fun s => Some (tt, mk_state (self s) (f (world s)), [e]).

(** A platform read. *)
Definition read {A} (f : World -> A * World) : M A :=
  fun s => let '(a, w) := f (world s) in Some (a, mk_state (self s) w, []).

(** A read-only method. *)
Definition query {A} (f : World -> A) : M A :=
  fun s => Some (f (world s), s, []).

Definition print (m : message) : M unit :=
  fun s => Some (tt, s, [EvPrint m]).

(** *** [firesim_top_t::simulation_complete] *)

(** [is_complete |= e->terminate()] over the vector, no early exit. *)
Fixpoint simulation_complete_from (is_complete : bool) (l : list bridge_ptr) : M bool :=
  match l with
  | [] => ret is_complete
  | e :: r =>
      t <- query (bd_terminate e) ;;
      simulation_complete_from (is_complete || t) r
  end.

Definition simulation_complete : M bool :=
  bs <- gets bridges ;;
  simulation_complete_from false bs.

(** *** [firesim_top_t::profile_models] *)

(** [uint64_t firesim_top_t::profile_models()]: [return profile_interval;]
    converts the field to the return type. *)
Definition profile_models : M Z :=
  ms <- gets fpga_models ;;
  for_each (fun mod_ => call (EvModelProfile mod_) (fm_profile mod_)) ms ;;
  v <- gets profile_interval ;;
  ret (to_uint64 v).

(** *** [firesim_top_t::exit_code] *)

(** [if (e->exit_code()) return e->exit_code();]: the method is called a
    second time for the value returned. *)
Fixpoint exit_code_from (l : list bridge_ptr) : M Z :=
  match l with
  | [] => ret 0
  | e :: r =>
      c <- query (bd_exit_code e) ;;
      if negb (c =? 0) then query (bd_exit_code e) else exit_code_from r
  end.

Definition exit_code : M Z :=
  bs <- gets bridges ;;
  exit_code_from bs.

(** *** The periodic task scheduler *)

(** The closure behind a registered task. *)
Definition run_task (c : task_t) : M Z :=
  match c with
  | ProfileModelsTask => profile_models
  end.

(** Modelled from the spec: the scheduler (class [systematic_scheduler_t]
    is not in [firesim_top.cc]).  A task is due when it is active and its
    countdown has reached zero. *)
Definition is_due (t : task_tuple_t) : bool :=
  active t && (countdown t <=? 0).

(** Modelled from the spec: the value by which a callback disables its
    task, -1 as the design has it for a disabled interval, in the return
    type of the callback. *)
Definition disable_sentinel : Z := to_uint64 (-1).

(** Modelled from the spec: what the scheduler does with the value a
    callback returns, "the next interval (allowing self-rescheduling or
    one-shot cancellation by returning a non-positive value) or a sentinel
    meaning disabled". *)
Definition reschedule (t : task_tuple_t) (next : Z) : task_tuple_t :=
  if (next <=? 0) || (next =? disable_sentinel)
  then mk_task (task t) (countdown t) false
  else mk_task (task t) next true.

(** Modelled from the spec: one pass over the task table, in
    registration order; execution is strictly sequential. *)
Fixpoint run_due (ts : list task_tuple_t) : M (list task_tuple_t) :=
  match ts with
  | [] => ret []
  | t :: r =>
      t' <- (if is_due t
             then next <- run_task (task t) ;; ret (reschedule t next)
             else ret t) ;;
      r' <- run_due r ;;
      ret (t' :: r')
  end.

(** Modelled from the spec: "run any tasks whose countdown has reached
    zero", in registration order, one after the other. *)
Definition run_scheduled_tasks : M unit :=
  ts <- gets tasks ;;
  ts' <- run_due ts ;;
  modify (set_tasks ts').

(** Modelled from the spec: advancing by [n] steps brings every active
    task [n] steps closer to its next invocation. *)
Definition advance_task (n : Z) (t : task_tuple_t) : task_tuple_t :=
  if active t then mk_task (task t) (countdown t - n) true else t.

(** Modelled from the spec: a step is safe for a task when it does not
    go past the task's next invocation ("a task registered with interval
    10 that always returns 10 must be invoked at steps 10, 20, 30"). *)
Definition bound_by_task (n : Z) (t : task_tuple_t) : Z :=
  if active t then Z.min n (countdown t) else n.

(** Modelled from the spec: "the largest safe step size (an external
    primitive bounded by the simulation platform)": the platform's bound,
    lowered to the nearest invocation of an active task; the step handed
    out is counted against the tasks. *)
Definition get_largest_stepsize : M Z :=
  ts <- gets tasks ;;
  limit <- query (sched_largest_stepsize ts) ;;
  let n := fold_left bound_by_task ts limit in
  modify (set_tasks (map (advance_task n) ts)) ;;
  ret n.

(** Modelled from the spec: [has_timed_out()] of the scheduler, "a pure
    function of elapsed target/host cycles compared against [max_cycles]";
    the function itself is a parameter. *)
Definition has_timed_out : M bool :=
  mc <- gets max_cycles ;;
  query (sched_has_timed_out mc).

(** Modelled from the spec: [simif_t::expect(pass, NULL)], which is not
    in [firesim_top.cc].  The failure is recorded for the calling process
    and the run goes on ("finalization still runs"). *)
Definition expect (ok : bool) : M unit :=
  fun s => Some (tt, mk_state (set_pass (pass (self s) && ok) (self s)) (world s),
                 [EvExpect ok]).

(** *** [firesim_top_t::run]

    The body of [run] is cut at its comments into five pieces, composed
    in [run] below in the order of the source. *)

(** The two [init] loops. *)
Definition run_init : M unit :=
  ms <- gets fpga_models ;;
  for_each (fun e => call (EvModelInit e) (fm_init e)) ms ;;
  bs <- gets bridges ;;
  for_each (fun e => call (EvBridgeInit e) (bd_init e)) bs.

(** From [if (do_zero_out_dram)] to [target_reset(50)]; returns
    [start_hcycle] and [start_time]. *)
Definition run_commence : M (Z * Z) :=
  z <- gets do_zero_out_dram ;;
  (if z
   then print MsgZeroing ;; call EvZeroOutDram sim_zero_out_dram
   else ret tt) ;;
  print MsgCommencing ;;
  start_hcycle <- read sim_hcycle ;;
  start_time <- read sim_timestamp ;;
  (* Assert reset T=0 -> 50 *)
  call (EvTargetReset 50) (sim_target_reset 50) ;;
  ret (start_hcycle, start_time).

(** [!simulation_complete() && !has_timed_out()] *)
Definition outer_cond : M bool :=
  c <- simulation_complete ;;
  if negb c then (t <- has_timed_out ;; ret (negb t)) else ret false.

(** [!done() && !simulation_complete()] *)
Definition inner_cond : M bool :=
  d <- read sim_done ;;
  if negb d then (c <- simulation_complete ;; ret (negb c)) else ret false.

(** [for (auto &e: bridges) e->tick();] *)
Definition tick_bridges : M unit :=
  bs <- gets bridges ;;
  for_each (fun e => call (EvBridgeTick e) (bd_tick e)) bs.

Definition outer_body (fuel : nat) : M unit :=
  run_scheduled_tasks ;;
  n <- get_largest_stepsize ;;
  call (EvStep n) (sim_step n false) ;;
  while_ fuel inner_cond tick_bridges.

(** The [while] loop of [run]. *)
Definition main_loop (fuel : nat) : M unit :=
  while_ fuel outer_cond (outer_body fuel).

(** The verdict line. *)
Definition verdict_message (exitcode end_cycle : Z) : M message :=
  if negb (exitcode =? 0)
  then ret (MsgFailedCode exitcode end_cycle)
  else
    c <- simulation_complete ;;
    t <- (if negb c then has_timed_out else ret false) ;;
    if negb c && t
    then ret (MsgFailedTimeout end_cycle)
    else ret (MsgPassed end_cycle).

(** The speed line: MHz above 1000 kHz, KHz otherwise. *)
Definition speed_message (sim_time sim_speed : double) : message :=
  if dgt sim_speed (double_of_Z 1000)
  then MsgSpeedMHz sim_time (ddiv sim_speed (double_of_Z 1000))
  else MsgSpeedKHz sim_time sim_speed.

(** [sim_speed = ((double) end_cycle) / (sim_time * 1000.0)] *)
Definition sim_speed_of (end_cycle : Z) (sim_time : double) : double :=
  ddiv (double_of_Z end_cycle) (dmul sim_time (double_of_Z 1000)).

(** From [end_time = timestamp()] to the FMR line; returns [exitcode]. *)
Definition run_report (start_hcycle start_time : Z) : M Z :=
  end_time <- read sim_timestamp ;;
  end_cycle <- read sim_actual_tcycle ;;
  h <- read sim_hcycle ;;
  let hcycles := (h - start_hcycle) mod 2 ^ 64 in
  let sim_time := sim_diff_secs end_time start_time in
  let sim_speed := sim_speed_of end_cycle sim_time in
  (* always print a newline after target's output *)
  print MsgNewline ;;
  exitcode <- exit_code ;;
  v <- verdict_message exitcode end_cycle ;;
  print v ;;
  print (speed_message sim_time sim_speed) ;;
  let fmr := ddiv (double_of_Z hcycles) (double_of_Z end_cycle) in
  print (MsgFMR fmr) ;;
  ret exitcode.

(** The two [finish] loops. *)
Definition run_finish : M unit :=
  ms <- gets fpga_models ;;
  for_each (fun e => call (EvModelFinish e) (fm_finish e)) ms ;;
  bs <- gets bridges ;;
  for_each (fun e => call (EvBridgeFinish e) (bd_finish e)) bs.

Definition run (fuel : nat) : M unit :=
  run_init ;;
  starts <- run_commence ;;
  main_loop fuel ;;
  exitcode <- run_report (fst starts) (snd starts) ;;
  expect (exitcode =? 0) ;;
  run_finish.

End Orchestrator.

(** ** A small concrete platform, to run the model *)

Module Demo.

(** The world: target cycles advanced, the cycle at which the drivers ask
    to stop, and the exit code each driver reports once stopped. *)
Record world_t : Type := mk_world {
  cycles : Z;
  stop_at : Z;
  codes : list Z;
  ticks : Z
}.

Definition stopped (w : world_t) : bool := stop_at w <=? cycles w.

#[global] Instance demo_simif : Simif world_t := {
  bd_init := fun _ w => w;
  bd_tick := fun _ w => mk_world (cycles w) (stop_at w) (codes w) (ticks w + 1);
  bd_terminate := fun b w => (Nat.eqb b 0) && stopped w;
  bd_exit_code := fun b w => if stopped w then nth b (codes w) 0 else 0;
  bd_finish := fun _ w => w;
  fm_init := fun _ w => w;
  fm_profile := fun _ w => w;
  fm_finish := fun _ w => w;
  sim_zero_out_dram := fun w => w;
  sim_target_reset := fun _ w => w;
  sim_step := fun n _ w => mk_world (cycles w + n) (stop_at w) (codes w) (ticks w);
  sim_done := fun w => (3 <=? ticks w, w);
  sim_hcycle := fun w => (2 * cycles w + ticks w, w);
  sim_actual_tcycle := fun w => (cycles w, w);
  sim_timestamp := fun w => (cycles w, w);
  sim_diff_secs := fun e s => double_of_Z (e - s);
  sched_has_timed_out := fun mc w => (0 <=? mc) && (mc <=? cycles w);
  sched_largest_stepsize := fun _ _ => 10
}.

(** The state in which [run] starts, for the arguments that follow the
    program name. *)
Definition start (args : list string) (build : list registration) (w : world_t)
  : state :=
  mk_state (firesim_top_body args build) w.

Definition two_bridges_one_model : list registration :=
  [RegBridge 0%nat; RegModel 7%nat; RegBridge 1%nat].

(** Driver 1 reports code 3 once the target has run 25 cycles. *)
Definition s_fail : state :=
  start ["+profile-interval=20"; "+zero-out-dram"]%string
        two_bridges_one_model (mk_world 0 25 [0; 3] 0).

(** No driver stops before the 20 cycles allowed. *)
Definition s_timeout : state :=
  start ["+max-cycles=20"]%string
        two_bridges_one_model (mk_world 0 25 [0; 3] 0).

(** Driver 0 stops at 15 cycles and every code is 0. *)
Definition s_pass : state :=
  start []
        two_bridges_one_model (mk_world 0 15 [0; 0] 0).

(** The same run at a loop test, after 20 cycles: driver 0 has asked to
    stop, driver 1 has not. *)
Definition s_stopped : state :=
  mk_state (self s_pass) (mk_world 20 15 [0; 0] 4).

(** Four drivers reporting 0, 0, 3 and 5. *)
Definition s_codes : state :=
  start []
        [RegBridge 0%nat; RegBridge 1%nat; RegBridge 2%nat; RegBridge 3%nat]
        (mk_world 0 0 [0; 0; 3; 5] 0).


End Demo.


(** ** Vocabulary of the statements *)

(** The first non-zero value of a list of codes, 0 when there is none. *)
Fixpoint first_nonzero (l : list Z) : Z :=
  match l with
  | [] => 0
  | c :: r => if c =? 0 then first_nonzero r else c
  end.

(** The verdict line as the design gives it: a non-zero code first, then a
    timeout with no driver terminating, PASSED otherwise. *)
Definition verdict_of (code : Z) (complete timed_out : bool) (end_cycle : Z)
  : message :=
  if negb (code =? 0) then MsgFailedCode code end_cycle
  else if negb complete && timed_out then MsgFailedTimeout end_cycle
  else MsgPassed end_cycle.

(** The calls found in a trace, by kind, in the order they were made. *)
Definition bridge_inits (tr : list event) : list bridge_ptr :=
  flat_map (fun e => match e with EvBridgeInit b => [b] | _ => [] end) tr.

Definition model_inits (tr : list event) : list model_ptr :=
  flat_map (fun e => match e with EvModelInit m => [m] | _ => [] end) tr.

Definition bridge_finishes (tr : list event) : list bridge_ptr :=
  flat_map (fun e => match e with EvBridgeFinish b => [b] | _ => [] end) tr.

Definition model_finishes (tr : list event) : list model_ptr :=
  flat_map (fun e => match e with EvModelFinish m => [m] | _ => [] end) tr.

Definition is_profile (e : event) : Prop :=
  match e with EvModelProfile _ => True | _ => False end.

(** One pass of the outer loop body: the due tasks (profile calls), one
    step, then [k] rounds of ticks over the bridges [bs]. *)
Definition outer_iteration (bs : list bridge_ptr) (tr : list event) : Prop :=
  exists prof n k,
    Forall is_profile prof /\
    tr = prof ++ [EvStep n] ++ List.concat (repeat (map EvBridgeTick bs) k).

(** The calls of the whole loop: a sequence of such passes. *)
Definition loop_trace (bs : list bridge_ptr) (tr : list event) : Prop :=
  exists its, Forall (outer_iteration bs) its /\ tr = List.concat its.

(** The calls the loop can make. *)
Definition loop_event (e : event) : Prop :=
  match e with
  | EvModelProfile _ | EvStep _ | EvBridgeTick _ => True
  | _ => False
  end.

(** "[init()] of driver [b] is called after the reset has been asserted":
    some [init] of [b] follows a [target_reset(50)] in the trace. *)
Definition init_after_reset (tr : list event) (b : bridge_ptr) : Prop :=
  exists pre post,
    tr = pre ++ EvTargetReset 50 :: post /\ In b (bridge_inits post).


(** The lines printed before the loop. *)
Definition commence_trace (t : firesim_top_t) : list event :=
  (if do_zero_out_dram t then [EvPrint MsgZeroing; EvZeroOutDram] else [])
  ++ [EvPrint MsgCommencing; EvTargetReset 50].

(** Equal but for the task table, which the scheduler updates. *)
Definition same_but_tasks (a b : firesim_top_t) : Prop :=
  set_tasks [] a = set_tasks [] b.

Section Vocabulary.

Context {World : Type} {P : Simif World}.

(** Some registered driver's [terminate()] is true. *)
Definition any_terminate (bs : list bridge_ptr) (w : World) : bool :=
  existsb (fun b => bd_terminate b w) bs.

(** The codes of the drivers, in registration order. *)
Definition exit_codes (bs : list bridge_ptr) (w : World) : list Z :=
  map (fun b => bd_exit_code b w) bs.

(** What the report reads once the loop has stopped in world [w]: the
    clock, the target cycle counter and the host cycle counter, in that
    order; [report_world] is the world after the three reads. *)
Definition report_end_time (w : World) : Z := fst (sim_timestamp w).
Definition report_end_cycle (w : World) : Z :=
  fst (sim_actual_tcycle (snd (sim_timestamp w))).
Definition report_hcycle (w : World) : Z :=
  fst (sim_hcycle (snd (sim_actual_tcycle (snd (sim_timestamp w))))).
Definition report_world (w : World) : World :=
  snd (sim_hcycle (snd (sim_actual_tcycle (snd (sim_timestamp w))))).

(** The aggregated exit code at the report. *)
Definition final_exit_code (t : firesim_top_t) (w : World) : Z :=
  first_nonzero (exit_codes (bridges t) (report_world w)).

(** The verdict line of the report. *)
Definition final_verdict (t : firesim_top_t) (w : World) : message :=
  verdict_of (final_exit_code t w)
             (any_terminate (bridges t) (report_world w))
             (sched_has_timed_out (max_cycles t) (report_world w))
             (report_end_cycle w).

(** The four lines of the report, for a loop that stopped in world [w]
    after starting at host cycle [sh] and time [st]. *)
Definition report_trace (t : firesim_top_t) (sh st : Z) (w : World)
  : list event :=
  let sim_time := sim_diff_secs (report_end_time w) st in
  [ EvPrint MsgNewline;
    EvPrint (final_verdict t w);
    EvPrint (speed_message sim_time (sim_speed_of (report_end_cycle w) sim_time));
    EvPrint (MsgFMR (ddiv (double_of_Z ((report_hcycle w - sh) mod 2 ^ 64))
                          (double_of_Z (report_end_cycle w)))) ].

(** The calls of the two [init] loops and of the two [finish] loops. *)
Definition init_trace (t : firesim_top_t) : list event :=
  map EvModelInit (fpga_models t) ++ map EvBridgeInit (bridges t).

Definition finish_trace (t : firesim_top_t) : list event :=
  map EvModelFinish (fpga_models t) ++ map EvBridgeFinish (bridges t).

(** The control loop stops: the part of [run] up to the end of the
    [while] returns. *)
Definition loop_stops (fuel : nat) (s : state) : Prop :=
  exists r, (run_init ;; run_commence ;; main_loop fuel) s = Some r.

End Vocabulary.

(** ** The registrations of the constructor, block by block

    Between the argument loop and the profiling task the constructor is a
    sequence of conditionally compiled blocks, one per bridge or model
    slot.  [Build.config] is the set of macros a build defines;
    [Build.constructor_blocks] is the sequence of blocks in the order of
    the source text; [Build.exec_block] is what one block does to the
    locals [host_mem_offsets] and [host_mem_offset] and which object it
    registers. *)

Module Build.

(** [uint64_t] arithmetic wraps modulo 2^64. *)
Definition uint64 (z : Z) : Z := z mod 2 ^ 64.

(** The two macros of a FASED slot that the constructor computes with:
    [FASEDMEMORYTIMINGMODEL_i_last_channel] and
    [FASEDMEMORYTIMINGMODEL_i_target_addr_bits]. *)
Record fased_macros : Type := mk_fased {
  last_channel : Z;
  target_addr_bits : Z
}.

(** The instantiation macros, whose definitions are in the bridge headers.
    Each is given [add_bridge_driver] and a slot index. *)
Inductive instantiate_macro : Type :=
| INSTANTIATE_TRACERV
| INSTANTIATE_AUTOCOUNTER
| INSTANTIATE_PRINTF.

(** The macros of one build.  [FASED i] is [None] when
    [FASEDMEMORYTIMINGMODEL_i] is not defined.  [expansion m i] is the
    number of drivers the expansion of macro [m] at slot [i] passes to the
    function it is given. *)
Record config : Type := mk_config {
  UART_PRESENT : nat -> bool;
  FASED : nat -> option fased_macros;
  SERIAL_struct_guard : bool;
  SERIAL_PRESENT : nat -> bool;
  BLOCKDEV_struct_guard : bool;
  BLOCKDEV_PRESENT : nat -> bool;
  SIMPLENIC_struct_guard : bool;
  SIMPLENIC_PRESENT : nat -> bool;
  TRACERV_struct_guard : bool;
  TRACERV_PRESENT : nat -> bool;
  GROUNDTEST_struct_guard : bool;
  GROUNDTEST_PRESENT : nat -> bool;
  AUTOCOUNTER_PRESENT : nat -> bool;
  ASSERT_PRESENT : nat -> bool;
  PRINT_PRESENT : nat -> bool;
  expansion : instantiate_macro -> nat -> nat
}.

(** The objects the constructor creates with [new], named by class and
    slot, with the arguments the constructor computes; the arguments that
    are macros of the slot ([..._substruct], [..._num_trackers],
    [..._DMA_ADDR], ...) are determined by the slot.  [instantiated m i k]
    is the [k]-th driver registered by the expansion of [m] at slot [i]. *)
Inductive component : Type :=
| uart_t (id : nat)
| FASEDMemoryTimingModel (id : nat) (stats_file : string) (mem_size : Z)
                         (mem_host_offset : Z) (suffix : string)
| serial_t (id : nat) (mem_host_offset : Z)
| blockdev_t (id : nat)
| simplenic_t (id : nat)
| groundtest_t (id : nat)
| synthesized_assertions_t (id : nat)
| instantiated (m : instantiate_macro) (id : nat) (k : nat).

(** A registration: [add_bridge_driver(new ...)] or
    [fpga_models.push_back(new ...)]. *)
Inductive call : Type :=
| AddBridgeDriver (c : component)
| PushBackModel (c : component).

Definition component_of_call (c : call) : component :=
  match c with
  | AddBridgeDriver x => x
  | PushBackModel x => x
  end.

(** The blocks of the constructor. *)
Inductive block : Type :=
| BUart (i : nat)
| BFased (i : nat)
| BSerial (i : nat)
| BBlockdev (i : nat)
| BSimplenic (i : nat)
| BTracerv (i : nat)
| BGroundtest (i : nat)
| BAutocounter (i : nat)
| BAssert (i : nat)
| BPrint (i : nat).

(** The blocks in the order of the source text.  There are 8 slots per
    kind, 16 for TracerV, and the block of assertion slot 3 is written
    twice. *)
Definition constructor_blocks : list block :=
  map BUart (seq 0 8)
  ++ map BFased (seq 0 8)
  ++ map BSerial (seq 0 8)
  ++ map BBlockdev (seq 0 8)
  ++ map BSimplenic (seq 0 8)
  ++ map BTracerv (seq 0 16)
  ++ map BGroundtest (seq 0 8)
  ++ map BAutocounter (seq 0 8)
  ++ map BAssert [0; 1; 2; 3; 3; 4; 5; 6; 7]%nat
  ++ map BPrint (seq 0 8).

(** The literals of the FASED blocks. *)
Definition stats_file_name (i : nat) : string :=
  match i with
  | 0 => "memory_stats.csv"
  | 1 => "memory_stats1.csv"
  | 2 => "memory_stats2.csv"
  | 3 => "memory_stats3.csv"
  | 4 => "memory_stats4.csv"
  | 5 => "memory_stats5.csv"
  | 6 => "memory_stats6.csv"
  | 7 => "memory_stats7.csv"
  | _ => ""
  end%nat%string.

Definition suffix_name (i : nat) : string :=
  match i with
  | 0 => "_0" | 1 => "_1" | 2 => "_2" | 3 => "_3"
  | 4 => "_4" | 5 => "_5" | 6 => "_6" | 7 => "_7"
  | _ => ""
  end%nat%string.

(** The locals of the constructor and the registrations made so far. *)
Record locals : Type := mk_locals {
  calls : list call;
  host_mem_offsets : list Z;
  host_mem_offset : Z
}.

(** [std::vector<uint64_t> host_mem_offsets;
     uint64_t host_mem_offset = -0x80000000LL;] *)
Definition initial_locals : locals :=
  mk_locals [] [] (uint64 (- 0x80000000)).

Definition registers (c : call) (r : locals) : locals :=
  mk_locals (calls r ++ [c]) (host_mem_offsets r) (host_mem_offset r).

(** The drivers an instantiation macro registers at slot [i]. *)
Definition expand (cfg : config) (m : instantiate_macro) (i : nat) (r : locals)
  : locals :=
  mk_locals (calls r
             ++ map (fun k => AddBridgeDriver (instantiated m i k))
                    (seq 0 (expansion cfg m i)))
            (host_mem_offsets r) (host_mem_offset r).

(** One block.  [None] is undefined behaviour: a shift by a count outside
    0..63 in a FASED block, or [host_mem_offsets[i]] read past the end of
    the vector in a serial block.  The size [1L << target_addr_bits] given
    to a memory model is kept as the mathematical value 2^bits. *)
Definition exec_block (cfg : config) (b : block) (r : locals) : option locals :=
  match b with
  | BUart i =>
      Some (if UART_PRESENT cfg i then registers (AddBridgeDriver (uart_t i)) r else r)
  | BFased i =>
      match FASED cfg i with
      | None => Some r
      | Some m =>
          let bits := target_addr_bits m in
          if (0 <=? bits) && (bits <? 64)
          then
            let lastChannel := uint64 (last_channel m) in
            Some (mk_locals
                    (calls r
                     ++ [PushBackModel
                           (FASEDMemoryTimingModel i (stats_file_name i)
                              (Z.shiftl 1 bits) (host_mem_offset r)
                              (suffix_name i))])
                    (host_mem_offsets r ++ [host_mem_offset r])
                    (uint64 (host_mem_offset r
                             + uint64 (Z.shiftl lastChannel bits))))
          else None
      end
  | BSerial i =>
      if SERIAL_struct_guard cfg && SERIAL_PRESENT cfg i
      then match nth_error (host_mem_offsets r) i with
           | Some h => Some (registers (AddBridgeDriver (serial_t i h)) r)
           | None => None
           end
      else Some r
  | BBlockdev i =>
      Some (if BLOCKDEV_struct_guard cfg && BLOCKDEV_PRESENT cfg i
            then registers (AddBridgeDriver (blockdev_t i)) r else r)
  | BSimplenic i =>
      Some (if SIMPLENIC_struct_guard cfg && SIMPLENIC_PRESENT cfg i
            then registers (AddBridgeDriver (simplenic_t i)) r else r)
  | BTracerv i =>
      Some (if TRACERV_struct_guard cfg && TRACERV_PRESENT cfg i
            then expand cfg INSTANTIATE_TRACERV i r else r)
  | BGroundtest i =>
      Some (if GROUNDTEST_struct_guard cfg && GROUNDTEST_PRESENT cfg i
            then registers (AddBridgeDriver (groundtest_t i)) r else r)
  | BAutocounter i =>
      Some (if AUTOCOUNTER_PRESENT cfg i
            then expand cfg INSTANTIATE_AUTOCOUNTER i r else r)
  | BAssert i =>
      Some (if ASSERT_PRESENT cfg i
            then registers (AddBridgeDriver (synthesized_assertions_t i)) r else r)
  | BPrint i =>
      Some (if PRINT_PRESENT cfg i
            then expand cfg INSTANTIATE_PRINTF i r else r)
  end.

Fixpoint exec_blocks (cfg : config) (bs : list block) (r : locals)
  : option locals :=
  match bs with
  | [] => Some r
  | b :: rest =>
      match exec_block cfg b r with
      | Some r' => exec_blocks cfg rest r'
      | None => None
      end
  end.

(** The locals and the registrations at the end of the blocks. *)
Definition registrations (cfg : config) : option locals :=
  exec_blocks cfg constructor_blocks initial_locals.

(** The pointer of an object is its rank among the registrations. *)
Definition handles_from (n : nat) (cs : list call) : list registration :=
  map (fun pc => match snd pc with
                 | AddBridgeDriver _ => RegBridge (fst pc)
                 | PushBackModel _ => RegModel (fst pc)
                 end)
      (combine (seq n (List.length cs)) cs).

Definition handles (cs : list call) : list registration := handles_from 0 cs.

(** The object behind a pointer. *)
Definition component_at (cs : list call) (p : nat) : option component :=
  option_map component_of_call (nth_error cs p).

(** The constructor for a build: the argument loop, the blocks, the
    profiling task. *)
Definition firesim_top_of_config (argv : list string) (cfg : config)
  : option firesim_top_t :=
  match registrations cfg with
  | Some r => firesim_top_ctor argv (handles (calls r))
  | None => None
  end.

(** The bridge drivers and the models among registrations, in order. *)
Definition bridge_components (cs : list call) : list component :=
  flat_map (fun c => match c with AddBridgeDriver x => [x] | PushBackModel _ => [] end) cs.

Definition model_components (cs : list call) : list component :=
  flat_map (fun c => match c with PushBackModel x => [x] | AddBridgeDriver _ => [] end) cs.

(** The place of an object in the source text: kind first (in the order
    of the blocks), slot second. *)
Definition source_rank (c : component) : nat :=
  match c with
  | uart_t i => i
  | FASEDMemoryTimingModel i _ _ _ _ => 16 + i
  | serial_t i _ => 32 + i
  | blockdev_t i => 48 + i
  | simplenic_t i => 64 + i
  | instantiated INSTANTIATE_TRACERV i _ => 80 + i
  | groundtest_t i => 96 + i
  | instantiated INSTANTIATE_AUTOCOUNTER i _ => 112 + i
  | synthesized_assertions_t i => 128 + i
  | instantiated INSTANTIATE_PRINTF i _ => 144 + i
  end%nat.

Definition block_rank (b : block) : nat :=
  match b with
  | BUart i => i
  | BFased i => 16 + i
  | BSerial i => 32 + i
  | BBlockdev i => 48 + i
  | BSimplenic i => 64 + i
  | BTracerv i => 80 + i
  | BGroundtest i => 96 + i
  | BAutocounter i => 112 + i
  | BAssert i => 128 + i
  | BPrint i => 144 + i
  end%nat.

(** The FASED slots a build defines, in slot order, and the span each
    adds to [host_mem_offset]: [lastChannel << target_addr_bits]. *)
Definition fased_slots (cfg : config) : list (nat * fased_macros) :=
  flat_map (fun i => match FASED cfg i with Some m => [(i, m)] | None => [] end)
           (seq 0 8).

Definition span (m : fased_macros) : Z :=
  uint64 (Z.shiftl (uint64 (last_channel m)) (target_addr_bits m)).

Definition valid_shift (m : fased_macros) : bool :=
  (0 <=? target_addr_bits m) && (target_addr_bits m <? 64).

(** The sum of a list of spans. *)
Definition total (l : list Z) : Z := fold_right Z.add 0 l.

(** The registrations in closed form, family by family. *)
Definition simple_calls (present : nat -> bool) (mk : nat -> component)
           (ids : list nat) : list call :=
  flat_map (fun i => if present i then [AddBridgeDriver (mk i)] else []) ids.

Definition macro_calls (cfg : config) (present : nat -> bool)
           (m : instantiate_macro) (ids : list nat) : list call :=
  flat_map (fun i => if present i
                     then map (fun k => AddBridgeDriver (instantiated m i k))
                              (seq 0 (expansion cfg m i))
                     else []) ids.

Definition slots_in (cfg : config) (ids : list nat) : list (nat * fased_macros) :=
  flat_map (fun i => match FASED cfg i with Some m => [(i, m)] | None => [] end) ids.

(** The offsets given to successive memory models, from [start]. *)
Fixpoint offsets_from (start : Z) (spans : list Z) : list Z :=
  match spans with
  | [] => []
  | s :: r => start :: offsets_from (uint64 (start + s)) r
  end.

Definition final_offset (start : Z) (spans : list Z) : Z :=
  fold_left (fun a s => uint64 (a + s)) spans start.

Definition fased_model (i : nat) (m : fased_macros) (offset : Z) : component :=
  FASEDMemoryTimingModel i (stats_file_name i) (Z.shiftl 1 (target_addr_bits m))
                         offset (suffix_name i).

Fixpoint fased_calls (start : Z) (slots : list (nat * fased_macros)) : list call :=
  match slots with
  | [] => []
  | (i, m) :: r =>
      PushBackModel (fased_model i m start) :: fased_calls (uint64 (start + span m)) r
  end.

Definition serial_calls (cfg : config) (offsets : list Z) (ids : list nat)
  : list call :=
  flat_map (fun i => if SERIAL_struct_guard cfg && SERIAL_PRESENT cfg i
                     then match nth_error offsets i with
                          | Some h => [AddBridgeDriver (serial_t i h)]
                          | None => []
                          end
                     else []) ids.

(** No serial block reads [host_mem_offsets] past its end. *)
Definition serial_in_range (cfg : config) (n : nat) (ids : list nat) : bool :=
  forallb (fun i => negb (SERIAL_struct_guard cfg && SERIAL_PRESENT cfg i)
                    || Nat.ltb i n) ids.

Definition guarded (g : bool) (present : nat -> bool) (i : nat) : bool :=
  g && present i.

Definition stats_file_of (c : component) : list string :=
  match c with
  | FASEDMemoryTimingModel _ f _ _ _ => [f]
  | _ => []
  end.

Definition host_offset_of (c : component) : list Z :=
  match c with
  | FASEDMemoryTimingModel _ _ _ h _ => [h]
  | serial_t _ h => [h]
  | _ => []
  end.

(** The calls of a build that is defined, family by family. *)
Definition calls_of (cfg : config) : list call :=
  let slots := fased_slots cfg in
  let start := uint64 (- 0x80000000) in
  let offsets := offsets_from start (map (fun sm => span (snd sm)) slots) in
  simple_calls (UART_PRESENT cfg) uart_t (seq 0 8)
  ++ fased_calls start slots
  ++ serial_calls cfg offsets (seq 0 8)
  ++ simple_calls (guarded (BLOCKDEV_struct_guard cfg) (BLOCKDEV_PRESENT cfg))
                  blockdev_t (seq 0 8)
  ++ simple_calls (guarded (SIMPLENIC_struct_guard cfg) (SIMPLENIC_PRESENT cfg))
                  simplenic_t (seq 0 8)
  ++ macro_calls cfg (guarded (TRACERV_struct_guard cfg) (TRACERV_PRESENT cfg))
                 INSTANTIATE_TRACERV (seq 0 16)
  ++ simple_calls (guarded (GROUNDTEST_struct_guard cfg) (GROUNDTEST_PRESENT cfg))
                  groundtest_t (seq 0 8)
  ++ macro_calls cfg (AUTOCOUNTER_PRESENT cfg) INSTANTIATE_AUTOCOUNTER (seq 0 8)
  ++ simple_calls (ASSERT_PRESENT cfg) synthesized_assertions_t
                  [0; 1; 2; 3; 3; 4; 5; 6; 7]%nat
  ++ macro_calls cfg (PRINT_PRESENT cfg) INSTANTIATE_PRINTF (seq 0 8).

(** The place in the source text of a registered object. *)
Definition call_rank (c : call) : nat := source_rank (component_of_call c).

(** A list of numbers that never decreases. *)
Fixpoint nondecreasing (l : list nat) : bool :=
  match l with
  | [] => true
  | x :: r => forallb (Nat.leb x) r && nondecreasing r
  end.

End Build.

(** A build for the demo platform: memory models in slots 0 and 2, one
    serial bridge, UARTs 0 and 1, assertion slots 3 and 5. *)
Definition demo_config : Build.config :=
  Build.mk_config
    (fun i => Nat.leb i 1)
    (fun i => match i with
              | 0%nat => Some (Build.mk_fased 1 34)
              | 2%nat => Some (Build.mk_fased 3 30)
              | _ => None
              end)
    true (fun i => Nat.eqb i 1)
    false (fun _ => true)
    true (fun _ => false)
    true (fun i => Nat.eqb i 9)
    false (fun _ => false)
    (fun _ => false)
    (fun i => Nat.eqb i 3 || Nat.eqb i 5)
    (fun i => Nat.eqb i 0)
    (fun _ _ => 1%nat).

(** The object built for [demo_config], and runs of the demo platform
    used below: one from that object, one with no bridge driver and a
    limit of 20 cycles, one in which driver 0 asks to stop from the start. *)
Definition demo_built : firesim_top_t :=
  firesim_top_body [] (Build.handles (Build.calls_of demo_config)).

Definition s_built : state :=
  mk_state demo_built (Demo.mk_world 0 15 [] 0).

Definition s_no_bridges : state :=
  Demo.start ["+max-cycles=20"]%string [RegModel 7%nat]
             (Demo.mk_world 0 25 [] 3).

Definition s_stopped_at_entry : state :=
  Demo.start [] Demo.two_bridges_one_model
             (Demo.mk_world 0 0 [0; 0] 0).

(** ** More vocabulary: single calls and their order *)

Definition is_step (e : event) : bool :=
  match e with EvStep _ => true | _ => false end.

Definition is_tick (e : event) : bool :=
  match e with EvBridgeTick _ => true | _ => false end.

Definition is_reset (e : event) : bool :=
  match e with EvTargetReset _ => true | _ => false end.

Definition is_step_or_tick (e : event) : bool := is_step e || is_tick e.

(** The calls made on bridge driver [b]. *)
Definition bridge_call_of (b : bridge_ptr) (e : event) : bool :=
  match e with
  | EvBridgeInit x | EvBridgeTick x | EvBridgeFinish x => Nat.eqb x b
  | _ => false
  end.

Definition bridge_calls (b : bridge_ptr) (tr : list event) : list event :=
  filter (bridge_call_of b) tr.

(** Every [q] call of the trace has a [p] call before it. *)
Definition preceded_by (p q : event -> bool) (tr : list event) : Prop :=
  forall pre e post,
    tr = pre ++ e :: post -> q e = true -> exists x, In x pre /\ p x = true.

(** The same, as a scan of the trace; [seen] tells whether a [p] call has
    been met. *)
Fixpoint guarded_by (p q : event -> bool) (seen : bool) (tr : list event) : bool :=
  match tr with
  | [] => true
  | e :: r => (negb (q e) || seen) && guarded_by p q (seen || p e) r
  end.

(** The drivers ticked, in the order of the calls. *)
Definition bridge_ticks (tr : list event) : list bridge_ptr :=
  flat_map (fun e => match e with EvBridgeTick b => [b] | _ => [] end) tr.




(** A run on the demo platform that starts at target cycle 100000000 and
    is stopped by driver 0 fifteen cycles later, and the same run with
    profiling every 15 steps. *)
Definition s_fast : state :=
  Demo.start [] Demo.two_bridges_one_model
             (Demo.mk_world 100000000 100000015 [0; 0] 0).

Definition s_interval15 : state :=
  Demo.start ["+profile-interval=15"]%string Demo.two_bridges_one_model
             (Demo.mk_world 0 40 [0; 0] 0).

(** ** Reasoning about computations *)

Section MonadFacts.

Context {St : Type}.

Lemma bind_Some {A B} (m : Run.M St A) (k : A -> Run.M St B) s b s2 tr :
  bind m k s = Some (b, s2, tr) ->
  exists a s1 t1 t2,
    m s = Some (a, s1, t1) /\ k a s1 = Some (b, s2, t2) /\ tr = t1 ++ t2.
Proof.
  unfold bind. destruct (m s) as [[[a s1] t1]|]; [|discriminate].
  destruct (k a s1) as [[[b' s2'] t2]|] eqn:Ek; [|discriminate].
  intros H. inversion H; subst. exists a, s1, t1, t2. auto.
Qed.

Lemma bind_eq {A B} (m : Run.M St A) (k : A -> Run.M St B) s a s1 t1 :
  m s = Some (a, s1, t1) ->
  bind m k s =
  match k a s1 with
  | None => None
  | Some (b, s2, t2) => Some (b, s2, t1 ++ t2)
  end.
Proof. intros H. unfold bind. now rewrite H. Qed.

Lemma bind_pure {A B} (m : Run.M St A) (k : A -> Run.M St B) s a :
  m s = Some (a, s, []) -> bind m k s = k a s.
Proof.
  intros H. rewrite (bind_eq _ _ _ _ _ _ H).
  now destruct (k a s) as [[[b s2] t2]|].
Qed.

Lemma bind_None {A B} (m : Run.M St A) (k : A -> Run.M St B) s :
  m s = None -> bind m k s = None.
Proof. intros H. unfold bind. now rewrite H. Qed.

(** The loop rule: an invariant of the state and a property of traces
    closed under concatenation hold when the loop returns. *)
Lemma while_inv (I : St -> Prop) (T : list event -> Prop)
      (cond : Run.M St bool) (body : Run.M St unit) :
  T [] ->
  (forall a b, T a -> T b -> T (a ++ b)) ->
  (forall s c s' tr, I s -> cond s = Some (c, s', tr) -> I s' /\ T tr) ->
  (forall s s' tr, I s -> body s = Some (tt, s', tr) -> I s' /\ T tr) ->
  forall fuel s s' tr,
    I s -> while_ fuel cond body s = Some (tt, s', tr) -> I s' /\ T tr.
Proof.
  intros Tnil Tapp Hc Hb. induction fuel as [|f IH]; intros s s' tr Is H.
  - discriminate.
  - simpl in H. apply bind_Some in H.
    destruct H as (c & s1 & t1 & t2 & Ec & Ek & ->).
    destruct (Hc _ _ _ _ Is Ec) as [I1 T1].
    destruct c.
    + apply bind_Some in Ek.
      destruct Ek as ([] & s2 & t3 & t4 & Eb & Ew & ->).
      destruct (Hb _ _ _ I1 Eb) as [I2 T3].
      destruct (IH _ _ _ I2 Ew) as [I3 T4].
      split; [assumption|]. apply Tapp; [assumption|]. now apply Tapp.
    + inversion Ek; subst. split; [assumption|]. apply Tapp; [assumption|apply Tnil].
Qed.

(** When the loop returns, its test has just answered false. *)
Lemma while_exit (cond : Run.M St bool) (body : Run.M St unit) :
  forall fuel s s' tr,
    while_ fuel cond body s = Some (tt, s', tr) ->
    exists s0 t0, cond s0 = Some (false, s', t0).
Proof.
  induction fuel as [|f IH]; intros s s' tr H.
  - discriminate.
  - simpl in H. apply bind_Some in H.
    destruct H as (c & s1 & t1 & t2 & Ec & Ek & ->).
    destruct c.
    + apply bind_Some in Ek.
      destruct Ek as ([] & s2 & t3 & t4 & Eb & Ew & ->).
      eapply IH; eassumption.
    + inversion Ek; subst. now exists s, t1.
Qed.

(** A test that answers false ends the loop at once, whatever the fuel
    left (but none). *)
Lemma while_false (cond : Run.M St bool) (body : Run.M St unit) fuel s s' t :
  cond s = Some (false, s', t) ->
  while_ (S fuel) cond body s = Some (tt, s', t).
Proof.
  intros H. simpl. rewrite (bind_eq _ _ _ _ _ _ H). simpl.
  now rewrite app_nil_r.
Qed.

(** More fuel does not change a run that returned. *)
Lemma while_mono (cond : Run.M St bool) (body1 body2 : Run.M St unit) :
  (forall s r, body1 s = Some r -> body2 s = Some r) ->
  forall n m s r,
    (n <= m)%nat ->
    while_ n cond body1 s = Some r -> while_ m cond body2 s = Some r.
Proof.
  intros Hb. induction n as [|n IH]; intros m s r Hle H.
  - discriminate.
  - destruct m as [|m]; [lia|]. simpl in *.
    destruct r as [[[] s'] tr].
    apply bind_Some in H. destruct H as (c & s1 & t1 & t2 & Ec & Ek & ->).
    rewrite (bind_eq _ _ _ _ _ _ Ec).
    destruct c.
    + apply bind_Some in Ek.
      destruct Ek as ([] & s2 & t3 & t4 & Eb & Ew & ->).
      rewrite (bind_eq _ _ _ _ _ _ (Hb _ _ Eb)).
      rewrite (IH m s2 (tt, s', t4)); [reflexivity|lia|assumption].
    + now rewrite Ek.
Qed.

End MonadFacts.

(** ** The methods, one by one *)

Section MethodFacts.

Context {World : Type} {P : Simif World}.

Implicit Types (s : @state World) (w : World).

Lemma state_eta s : mk_state (self s) (world s) = s.
Proof. now destruct s. Qed.

Lemma for_each_call {A} (ev : A -> event) (f : A -> World -> World) l s :
  for_each (fun e => call (ev e) (f e)) l s =
  Some (tt, mk_state (self s) (fold_left (fun w e => f e w) l (world s)),
        map ev l).
Proof.
  revert s. induction l as [|e r IH]; intros s; simpl.
  - unfold ret. now rewrite state_eta.
  - unfold bind at 1, call at 1. now rewrite IH.
Qed.

Lemma simulation_complete_from_eq acc l s :
  simulation_complete_from acc l s = Some (acc || any_terminate l (world s), s, []).
Proof.
  revert acc. induction l as [|e r IH]; intros acc; simpl.
  - unfold ret. now rewrite orb_false_r.
  - rewrite (bind_pure _ _ s (bd_terminate e (world s))) by reflexivity.
    rewrite IH. now rewrite orb_assoc.
Qed.

Lemma simulation_complete_eq s :
  simulation_complete s =
  Some (any_terminate (bridges (self s)) (world s), s, []).
Proof.
  unfold simulation_complete.
  rewrite (bind_pure _ _ s (bridges (self s))) by reflexivity.
  apply simulation_complete_from_eq.
Qed.

Lemma has_timed_out_eq s :
  has_timed_out s =
  Some (sched_has_timed_out (max_cycles (self s)) (world s), s, []).
Proof. reflexivity. Qed.

Lemma exit_code_from_eq l s :
  exit_code_from l s = Some (first_nonzero (exit_codes l (world s)), s, []).
Proof.
  induction l as [|e r IH]; simpl; [reflexivity|].
  rewrite (bind_pure _ _ s (bd_exit_code e (world s))) by reflexivity.
  destruct (bd_exit_code e (world s) =? 0); simpl; [exact IH|reflexivity].
Qed.

Lemma exit_code_eq s :
  exit_code s =
  Some (first_nonzero (exit_codes (bridges (self s)) (world s)), s, []).
Proof.
  unfold exit_code.
  rewrite (bind_pure _ _ s (bridges (self s))) by reflexivity.
  apply exit_code_from_eq.
Qed.

Lemma profile_models_eq s :
  profile_models s =
  Some (to_uint64 (profile_interval (self s)),
        mk_state (self s)
                 (fold_left (fun w m => fm_profile m w) (fpga_models (self s)) (world s)),
        map EvModelProfile (fpga_models (self s))).
Proof.
  unfold profile_models.
  rewrite (bind_pure _ _ s (fpga_models (self s))) by reflexivity.
  rewrite (bind_eq _ _ _ _ _ _ (for_each_call EvModelProfile fm_profile _ s)).
  unfold gets, bind, ret. cbn [self world]. now rewrite !app_nil_r.
Qed.

Lemma Forall_is_profile_map ms : Forall is_profile (map EvModelProfile ms).
Proof. induction ms; simpl; constructor; simpl; auto. Qed.

(** A due task: its callback runs and the task is rescheduled. *)
Lemma run_one_due t s :
  (next <- run_task (task t) ;; ret (reschedule t next)) s =
  Some (reschedule t (to_uint64 (profile_interval (self s))),
        mk_state (self s)
                 (fold_left (fun w m => fm_profile m w) (fpga_models (self s)) (world s)),
        map EvModelProfile (fpga_models (self s))).
Proof.
  destruct t as [[] c a]. simpl.
  rewrite (bind_eq _ _ _ _ _ _ (profile_models_eq s)).
  unfold ret. now rewrite app_nil_r.
Qed.

Lemma run_due_inv ts : forall s,
  exists ts' w' tr,
    run_due ts s = Some (ts', mk_state (self s) w', tr) /\ Forall is_profile tr.
Proof.
  induction ts as [|t r IH]; intros s; simpl.
  - exists [], (world s), []. unfold ret. rewrite state_eta. auto.
  - destruct (is_due t).
    + rewrite (bind_eq _ _ _ _ _ _ (run_one_due t s)).
      set (s1 := mk_state _ _).
      destruct (IH s1) as (ts' & w' & tr & E & F).
      rewrite (bind_eq _ _ _ _ _ _ E). unfold ret.
      eexists _, w', _. split; [reflexivity|].
      rewrite !app_nil_r. apply Forall_app. split; [apply Forall_is_profile_map|exact F].
    + rewrite (bind_pure _ _ s t) by reflexivity.
      destruct (IH s) as (ts' & w' & tr & E & F).
      rewrite (bind_eq _ _ _ _ _ _ E). unfold ret.
      eexists _, w', _. split; [reflexivity|]. now rewrite app_nil_r.
Qed.

Lemma run_scheduled_tasks_inv s :
  exists ts' w' tr,
    run_scheduled_tasks s = Some (tt, mk_state (set_tasks ts' (self s)) w', tr)
    /\ Forall is_profile tr.
Proof.
  unfold run_scheduled_tasks.
  rewrite (bind_pure _ _ s (tasks (self s))) by reflexivity.
  destruct (run_due_inv (tasks (self s)) s) as (ts' & w' & tr & E & F).
  rewrite (bind_eq _ _ _ _ _ _ E). unfold modify. simpl.
  exists ts', w', tr. now rewrite app_nil_r.
Qed.

Lemma get_largest_stepsize_eq s :
  get_largest_stepsize s =
  let n := fold_left bound_by_task (tasks (self s))
                       (sched_largest_stepsize (tasks (self s)) (world s)) in
  Some (n, mk_state (set_tasks (map (advance_task n) (tasks (self s))) (self s))
                    (world s), []).
Proof. reflexivity. Qed.

Lemma tick_bridges_eq s :
  tick_bridges s =
  Some (tt, mk_state (self s)
                     (fold_left (fun w b => bd_tick b w) (bridges (self s)) (world s)),
        map EvBridgeTick (bridges (self s))).
Proof.
  unfold tick_bridges.
  rewrite (bind_pure _ _ s (bridges (self s))) by reflexivity.
  apply for_each_call.
Qed.

Lemma outer_cond_eq s :
  outer_cond s =
  Some (negb (any_terminate (bridges (self s)) (world s))
        && negb (sched_has_timed_out (max_cycles (self s)) (world s)), s, []).
Proof.
  unfold outer_cond.
  rewrite (bind_pure _ _ _ _ (simulation_complete_eq s)).
  destruct (any_terminate _ _); simpl; [reflexivity|].
  now rewrite (bind_pure _ _ _ _ (has_timed_out_eq s)).
Qed.

Lemma inner_cond_eq s :
  inner_cond s =
  let d := fst (sim_done (world s)) in
  let w' := snd (sim_done (world s)) in
  Some (negb d && negb (any_terminate (bridges (self s)) w'),
        mk_state (self s) w', []).
Proof.
  unfold inner_cond, read, bind at 1.
  destruct (sim_done (world s)) as [d w']. simpl.
  destruct d; simpl; [reflexivity|].
  set (s1 := mk_state (self s) w').
  now rewrite (bind_pure _ _ _ _ (simulation_complete_eq s1)).
Qed.

End MethodFacts.

(** ** The loops and the phases of [run] *)

Section RunFacts.

Context {World : Type} {P : Simif World}.

Implicit Types (s : @state World) (w : World).

Lemma same_but_tasks_refl a : same_but_tasks a a.
Proof. reflexivity. Qed.

Lemma same_but_tasks_trans a b c :
  same_but_tasks a b -> same_but_tasks b c -> same_but_tasks a c.
Proof. unfold same_but_tasks. congruence. Qed.

Lemma same_but_tasks_set ts a : same_but_tasks a (set_tasks ts a).
Proof. reflexivity. Qed.

Lemma same_but_tasks_fields a b :
  same_but_tasks a b ->
  max_cycles a = max_cycles b /\ profile_interval a = profile_interval b /\
  do_zero_out_dram a = do_zero_out_dram b /\ bridges a = bridges b /\
  fpga_models a = fpga_models b /\ pass a = pass b.
Proof.
  unfold same_but_tasks, set_tasks. intros H. inversion H. auto 10.
Qed.

Lemma same_but_tasks_eq a b :
  same_but_tasks a b -> b = set_tasks (tasks b) a.
Proof.
  intros H. apply same_but_tasks_fields in H.
  destruct H as (H1 & H2 & H3 & H4 & H5 & H6).
  destruct a, b; simpl in *; subst. reflexivity.
Qed.

Lemma concat_repeat_app {A} (x : list A) k1 k2 :
  List.concat (repeat x k1) ++ List.concat (repeat x k2) =
  List.concat (repeat x (k1 + k2)).
Proof. now rewrite repeat_app, concat_app. Qed.

(** The inner loop: rounds of ticks, each over all bridges in order. *)
Lemma inner_loop_inv fuel s s' tr :
  while_ fuel inner_cond tick_bridges s = Some (tt, s', tr) ->
  self s' = self s /\
  exists k, tr = List.concat (repeat (map EvBridgeTick (bridges (self s))) k).
Proof.
  intros H.
  apply (while_inv
           (fun s1 => self s1 = self s)
           (fun t => exists k,
                t = List.concat (repeat (map EvBridgeTick (bridges (self s))) k))
           inner_cond tick_bridges) with (fuel := fuel) (s := s); auto.
  - now exists 0%nat.
  - intros a b [k1 ->] [k2 ->]. exists (k1 + k2)%nat. apply concat_repeat_app.
  - intros s1 c s2 t I1 E. rewrite inner_cond_eq in E. simpl in E.
    inversion E; subst. split; [exact I1|now exists 0%nat].
  - intros s1 s2 t I1 E. rewrite tick_bridges_eq in E.
    inversion E; subst. split; [exact I1|].
    exists 1%nat. simpl. now rewrite app_nil_r, I1.
Qed.

Lemma outer_body_inv fuel s s' tr :
  outer_body fuel s = Some (tt, s', tr) ->
  same_but_tasks (self s) (self s') /\ outer_iteration (bridges (self s)) tr.
Proof.
  unfold outer_body. intros H.
  destruct (run_scheduled_tasks_inv s) as (ts1 & w1 & prof & E1 & F1).
  rewrite (bind_eq _ _ _ _ _ _ E1) in H.
  set (s1 := mk_state (set_tasks ts1 (self s)) w1) in *.
  rewrite (bind_eq _ _ _ _ _ _ (get_largest_stepsize_eq s1)) in H.
  cbv zeta in H.
  set (n := fold_left bound_by_task (tasks (self s1))
                       (sched_largest_stepsize (tasks (self s1)) (world s1))) in *.
  set (s2 := mk_state _ (world s1)) in H.
  unfold bind at 1, call at 1 in H.
  set (s3 := mk_state (self s2) _) in H.
  destruct (while_ fuel inner_cond tick_bridges s3) as [[[[] s4] t4]|] eqn:E4;
    [|discriminate].
  apply inner_loop_inv in E4. destruct E4 as [E4 [k ->]].
  inversion H; subst. split.
  - rewrite E4. reflexivity.
  - exists prof, n, k. split; [exact F1|]. simpl.
    reflexivity.
Qed.

(** The outer loop: the fields other than the task table are unchanged,
    the calls are a sequence of passes, and on exit some driver has
    terminated or the timeout has tripped. *)
Lemma main_loop_inv fuel s s' tr :
  main_loop fuel s = Some (tt, s', tr) ->
  same_but_tasks (self s) (self s') /\
  loop_trace (bridges (self s)) tr /\
  any_terminate (bridges (self s')) (world s')
  || sched_has_timed_out (max_cycles (self s')) (world s') = true.
Proof.
  unfold main_loop. intros H.
  assert (G : same_but_tasks (self s) (self s') /\ loop_trace (bridges (self s)) tr).
  { apply (while_inv
             (fun s1 => same_but_tasks (self s) (self s1))
             (loop_trace (bridges (self s)))
             outer_cond (outer_body fuel)) with (fuel := fuel) (s := s); auto.
    - exists []. split; [constructor|reflexivity].
    - intros a b (ia & Fa & ->) (ib & Fb & ->). exists (ia ++ ib).
      split; [now apply Forall_app|now rewrite concat_app].
    - intros s1 c s2 t I1 E. rewrite outer_cond_eq in E.
      inversion E; subst. split; [exact I1|].
      exists []. split; [constructor|reflexivity].
    - intros s1 s2 t I1 E. apply outer_body_inv in E. destruct E as [E1 E2].
      split; [eapply same_but_tasks_trans; eassumption|].
      exists [t]. split; [|simpl; now rewrite app_nil_r].
      constructor; [|constructor].
      apply same_but_tasks_fields in I1.
      destruct I1 as (_ & _ & _ & -> & _). exact E2.
    - apply same_but_tasks_refl. }
  destruct G as [G1 G2]. repeat split; try assumption.
  apply while_exit in H. destruct H as (s0 & t0 & E).
  rewrite outer_cond_eq in E. inversion E; subst.
  destruct (any_terminate _ _); [reflexivity|].
  destruct (sched_has_timed_out _ _); [reflexivity|discriminate].
Qed.

(** Fuel only bounds the number of iterations: a loop that returned
    returns the same with more. *)
Lemma outer_body_mono n m s r :
  (n <= m)%nat -> outer_body n s = Some r -> outer_body m s = Some r.
Proof.
  intros Hle H. unfold outer_body in *. destruct r as [[[] s'] tr].
  apply bind_Some in H. destruct H as ([] & s1 & t1 & t2 & E1 & H & ->).
  rewrite (bind_eq _ _ _ _ _ _ E1).
  apply bind_Some in H. destruct H as (k & s2 & t3 & t4 & E2 & H & ->).
  rewrite (bind_eq _ _ _ _ _ _ E2).
  apply bind_Some in H. destruct H as ([] & s3 & t5 & t6 & E3 & H & ->).
  rewrite (bind_eq _ _ _ _ _ _ E3).
  rewrite (while_mono inner_cond tick_bridges tick_bridges
             (fun _ _ e => e) n m s3 _ Hle H).
  reflexivity.
Qed.

Lemma main_loop_mono n m s r :
  (n <= m)%nat -> main_loop n s = Some r -> main_loop m s = Some r.
Proof.
  intros Hle H. unfold main_loop in *.
  apply (while_mono outer_cond (outer_body n) (outer_body m)
           (fun s0 r0 => outer_body_mono n m s0 r0 Hle) n m s r Hle H).
Qed.

Lemma run_fuel_mono n m s r :
  (n <= m)%nat -> run n s = Some r -> run m s = Some r.
Proof.
  intros Hle H. unfold run in *. destruct r as [[[] s'] tr].
  apply bind_Some in H. destruct H as ([] & s1 & t1 & t2 & E1 & H & ->).
  rewrite (bind_eq _ _ _ _ _ _ E1).
  apply bind_Some in H. destruct H as (st & s2 & t3 & t4 & E2 & H & ->).
  rewrite (bind_eq _ _ _ _ _ _ E2).
  apply bind_Some in H. destruct H as ([] & s3 & t5 & t6 & E3 & H & ->).
  rewrite (bind_eq _ _ _ _ _ _ (main_loop_mono n m _ _ Hle E3)).
  now rewrite H.
Qed.

Lemma run_init_inv s :
  exists w1, run_init s = Some (tt, mk_state (self s) w1, init_trace (self s)).
Proof.
  unfold run_init.
  rewrite (bind_pure _ _ s (fpga_models (self s))) by reflexivity.
  rewrite (bind_eq _ _ _ _ _ _ (for_each_call EvModelInit fm_init _ s)).
  set (s1 := mk_state _ _).
  rewrite (bind_pure _ _ s1 (bridges (self s))) by reflexivity.
  rewrite (for_each_call EvBridgeInit bd_init _ s1).
  eexists. reflexivity.
Qed.

Lemma run_commence_inv s :
  exists sh st w1,
    run_commence s = Some ((sh, st), mk_state (self s) w1, commence_trace (self s)).
Proof.
  unfold run_commence, commence_trace.
  rewrite (bind_pure _ _ s (do_zero_out_dram (self s))) by reflexivity.
  destruct (do_zero_out_dram (self s)).
  - unfold bind, print, call, read, ret. simpl.
    destruct (sim_hcycle _) as [sh w1]. simpl.
    destruct (sim_timestamp _) as [st w2]. simpl.
    eexists sh, st, _. reflexivity.
  - unfold bind, print, call, read, ret. simpl.
    destruct (sim_hcycle _) as [sh w1]. simpl.
    destruct (sim_timestamp _) as [st w2]. simpl.
    eexists sh, st, _. reflexivity.
Qed.

Lemma verdict_message_eq code end_cycle s :
  verdict_message code end_cycle s =
  Some (verdict_of code (any_terminate (bridges (self s)) (world s))
                   (sched_has_timed_out (max_cycles (self s)) (world s))
                   end_cycle, s, []).
Proof.
  unfold verdict_message, verdict_of.
  destruct (negb (code =? 0)); [reflexivity|].
  rewrite (bind_pure _ _ _ _ (simulation_complete_eq s)).
  destruct (any_terminate _ _); simpl.
  - reflexivity.
  - rewrite (bind_pure _ _ _ _ (has_timed_out_eq s)).
    now destruct (sched_has_timed_out _ _).
Qed.

Lemma run_report_eq sh st s :
  run_report sh st s =
  Some (final_exit_code (self s) (world s),
        mk_state (self s) (report_world (world s)),
        report_trace (self s) sh st (world s)).
Proof.
  unfold run_report, report_trace, final_verdict, final_exit_code,
    report_world, report_hcycle, report_end_cycle, report_end_time.
  unfold bind at 1, read at 1.
  destruct (sim_timestamp (world s)) as [et w1]. simpl.
  unfold bind at 1, read at 1. simpl.
  destruct (sim_actual_tcycle w1) as [ec w2]. simpl.
  unfold bind at 1, read at 1. simpl.
  destruct (sim_hcycle w2) as [h w3]. simpl.
  set (s3 := mk_state (self s) w3).
  unfold bind at 1, print at 1.
  rewrite (bind_pure _ _ _ _ (exit_code_eq s3)).
  rewrite (bind_pure _ _ _ _ (verdict_message_eq _ _ s3)).
  reflexivity.
Qed.

Lemma run_finish_inv s :
  exists w1, run_finish s = Some (tt, mk_state (self s) w1, finish_trace (self s)).
Proof.
  unfold run_finish.
  rewrite (bind_pure _ _ s (fpga_models (self s))) by reflexivity.
  rewrite (bind_eq _ _ _ _ _ _ (for_each_call EvModelFinish fm_finish _ s)).
  set (s1 := mk_state _ _).
  rewrite (bind_pure _ _ s1 (bridges (self s))) by reflexivity.
  rewrite (for_each_call EvBridgeFinish bd_finish _ s1).
  eexists. reflexivity.
Qed.

(** Everything [run] does after the loop is straight-line code: when the
    loop stops, [run] returns. *)
Lemma run_returns fuel s :
  loop_stops fuel s -> exists s' tr, run fuel s = Some (tt, s', tr).
Proof.
  intros [[[u sl] tl] H]. unfold run.
  destruct (run_init_inv s) as (w1 & E1).
  rewrite (bind_eq _ _ _ _ _ _ E1) in H. rewrite (bind_eq _ _ _ _ _ _ E1).
  set (s1 := mk_state (self s) w1) in *.
  destruct (run_commence_inv s1) as (sh & st & w2 & E2).
  rewrite (bind_eq _ _ _ _ _ _ E2) in H. rewrite (bind_eq _ _ _ _ _ _ E2).
  set (s2 := mk_state (self s1) w2) in *.
  destruct (main_loop fuel s2) as [[[[] s3] t3]|] eqn:E3; [|discriminate].
  rewrite (bind_eq _ _ _ _ _ _ E3).
  rewrite (bind_eq _ _ _ _ _ _ (run_report_eq _ _ s3)).
  set (s4 := mk_state (self s3) _).
  unfold bind at 1, expect at 1.
  set (s5 := mk_state _ (world s4)).
  destruct (run_finish_inv s5) as (w6 & E6). rewrite E6.
  eexists _, _. reflexivity.
Qed.

(** The anatomy of a run that returned; [sl] is the state in which the
    loop stopped. *)
Lemma run_anatomy fuel s s' tr :
  run fuel s = Some (tt, s', tr) ->
  exists sh st loop_tr sl,
    (exists w2, main_loop fuel (mk_state (self s) w2) = Some (tt, sl, loop_tr)) /\
    tr = init_trace (self s) ++ commence_trace (self s) ++ loop_tr
         ++ report_trace (self s) sh st (world sl)
         ++ [EvExpect (final_exit_code (self s) (world sl) =? 0)]
         ++ finish_trace (self s) /\
    self s' = set_pass (pass (self s) && (final_exit_code (self s) (world sl) =? 0))
                       (self sl).
Proof.
  unfold run. intros H.
  destruct (run_init_inv s) as (w1 & E1).
  rewrite (bind_eq _ _ _ _ _ _ E1) in H.
  set (s1 := mk_state (self s) w1) in *.
  destruct (run_commence_inv s1) as (sh & st & w2 & E2).
  rewrite (bind_eq _ _ _ _ _ _ E2) in H.
  set (s2 := mk_state (self s1) w2) in *.
  destruct (main_loop fuel s2) as [[[[] s3] t3]|] eqn:E3;
    [|rewrite (bind_None _ _ _ E3) in H; discriminate].
  rewrite (bind_eq _ _ _ _ _ _ E3) in H.
  rewrite (bind_eq _ _ _ _ _ _ (run_report_eq _ _ s3)) in H.
  set (s4 := mk_state (self s3) _) in H.
  unfold bind at 1, expect at 1 in H.
  set (s5 := mk_state _ (world s4)) in H.
  destruct (run_finish_inv s5) as (w6 & E6). rewrite E6 in H.
  pose proof (main_loop_inv _ _ _ _ E3) as (G1 & G2 & G3).
  simpl in G1, G2.
  destruct (same_but_tasks_fields _ _ G1) as (F1 & F2 & F3 & F4 & F5 & F6).
  exists sh, st, t3, s3. split; [|split].
  - exists w2. exact E3.
  - inversion H; subst tr. clear H.
    unfold report_trace, final_verdict, final_exit_code, finish_trace.
    simpl. rewrite <- F1, <- F4, <- F5. simpl. reflexivity.
  - inversion H; subst s'. simpl.
    unfold final_exit_code. rewrite <- F4, <- F6. reflexivity.
Qed.

Lemma run_inv fuel s s' tr :
  run fuel s = Some (tt, s', tr) ->
  exists sh st loop_tr sl,
    loop_trace (bridges (self s)) loop_tr /\
    same_but_tasks (self s) (self sl) /\
    any_terminate (bridges (self s)) (world sl)
    || sched_has_timed_out (max_cycles (self s)) (world sl) = true /\
    tr = init_trace (self s) ++ commence_trace (self s) ++ loop_tr
         ++ report_trace (self s) sh st (world sl)
         ++ [EvExpect (final_exit_code (self s) (world sl) =? 0)]
         ++ finish_trace (self s) /\
    self s' = set_pass (pass (self s) && (final_exit_code (self s) (world sl) =? 0))
                       (self sl).
Proof.
  intros H. apply run_anatomy in H.
  destruct H as (sh & st & loop_tr & sl & (w2 & E) & Htr & Hs).
  apply main_loop_inv in E. destruct E as (G1 & G2 & G3). simpl in G1, G2.
  destruct (same_but_tasks_fields _ _ G1) as (F1 & _ & _ & F4 & _).
  exists sh, st, loop_tr, sl. repeat split; try assumption.
  rewrite F1, F4. exact G3.
Qed.

(** A run, from the state in which its loop stopped. *)
Lemma run_from_loop_end fuel s starts s1 t0 sl loop_tr :
  (run_init ;; run_commence) s = Some (starts, s1, t0) ->
  main_loop fuel s1 = Some (tt, sl, loop_tr) ->
  exists s',
    run fuel s =
    Some (tt, s',
          t0 ++ loop_tr
          ++ report_trace (self s) (fst starts) (snd starts) (world sl)
          ++ [EvExpect (final_exit_code (self s) (world sl) =? 0)]
          ++ finish_trace (self s)).
Proof.
  intros E0 E3.
  apply bind_Some in E0.
  destruct E0 as ([] & si & ti & tc & Ei & Ec & ->).
  destruct (main_loop_inv _ _ _ _ E3) as (G1 & _).
  destruct (run_init_inv s) as (w1 & E1). rewrite E1 in Ei.
  inversion Ei; subst si ti. clear Ei.
  destruct (run_commence_inv (mk_state (self s) w1)) as (sh0 & st0 & w2 & E2).
  rewrite E2 in Ec. inversion Ec; subst starts s1 tc. clear Ec.
  cbn [self] in G1.
  destruct (same_but_tasks_fields _ _ G1) as (F1 & F2 & F3 & F4 & F5 & F6).
  unfold run.
  rewrite (bind_eq _ _ _ _ _ _ E1), (bind_eq _ _ _ _ _ _ E2).
  cbn [fst snd].
  rewrite (bind_eq _ _ _ _ _ _ E3).
  rewrite (bind_eq _ _ _ _ _ _ (run_report_eq _ _ sl)).
  set (s4 := mk_state (self sl) _).
  unfold bind at 1, expect at 1.
  set (s5 := mk_state _ (world s4)).
  destruct (run_finish_inv s5) as (w6 & E6). rewrite E6.
  eexists.
  unfold report_trace, final_verdict, final_exit_code, finish_trace.
  subst s5 s4. cbn [self set_pass fpga_models bridges].
  rewrite <- F1, <- F4, <- F5, <- !app_assoc. reflexivity.
Qed.

End RunFacts.

(** ** Reading calls off a trace *)

Section TraceFacts.

Lemma flat_map_none {A B} (f : A -> list B) (l : list A) :
  Forall (fun x => f x = []) l -> flat_map f l = [].
Proof.
  induction 1 as [|x r Hx _ IH]; simpl; [reflexivity|]. now rewrite Hx, IH.
Qed.

Lemma flat_map_of_map {A B C} (f : A -> list B) (g : C -> A) (l : list C) :
  flat_map f (map g l) = flat_map (fun x => f (g x)) l.
Proof. induction l as [|x r IH]; simpl; [reflexivity|]. now rewrite IH. Qed.

Lemma flat_map_single {A} (l : list A) : flat_map (fun x => [x]) l = l.
Proof. induction l as [|x r IH]; simpl; [reflexivity|]. now rewrite IH. Qed.

Lemma flat_map_empty {A B} (l : list A) :
  flat_map (fun _ => @nil B) l = [].
Proof. induction l as [|x r IH]; simpl; [reflexivity|]. exact IH. Qed.

Lemma loop_trace_events bs tr : loop_trace bs tr -> Forall loop_event tr.
Proof.
  intros (its & F & ->). induction F as [|it r Hit _ IH]; simpl; [constructor|].
  apply Forall_app. split; [|exact IH].
  destruct Hit as (prof & n & k & Fp & ->).
  apply Forall_app. split.
  - eapply Forall_impl; [|exact Fp]. now intros [].
  - simpl. constructor; [exact I|].
    assert (Ft : Forall loop_event (map EvBridgeTick bs)).
    { clear. induction bs as [|b r IH]; simpl; constructor; [exact I|exact IH]. }
    induction k as [|k IHk]; simpl; [constructor|].
    apply Forall_app. split; [exact Ft|exact IHk].
Qed.

Lemma loop_events_no (f : event -> list nat) tr :
  (forall e, loop_event e -> f e = []) ->
  Forall loop_event tr -> flat_map f tr = [].
Proof.
  intros H F. apply flat_map_none. eapply Forall_impl; [|exact F]. exact H.
Qed.

Lemma commence_trace_no (f : event -> list nat) t :
  f (EvPrint MsgZeroing) = [] -> f EvZeroOutDram = [] ->
  f (EvPrint MsgCommencing) = [] -> f (EvTargetReset 50) = [] ->
  flat_map f (commence_trace t) = [].
Proof.
  intros H1 H2 H3 H4. unfold commence_trace.
  destruct (do_zero_out_dram t); simpl; now rewrite ?H1, ?H2, ?H3, ?H4.
Qed.

(** Where an event can sit in a trace cut in two at an event [x]. *)
Lemma split_at_event {A} (x y : A) : forall tr1 tr2 pre post,
  tr1 ++ x :: tr2 = pre ++ y :: post ->
  (exists mid, tr1 = pre ++ y :: mid) \/
  (x = y /\ pre = tr1 /\ post = tr2) \/
  (exists mid, tr2 = mid ++ y :: post).
Proof.
  induction tr1 as [|a r IH]; intros tr2 pre post H; simpl in H.
  - destruct pre as [|p pre]; simpl in H; inversion H; subst.
    + right. left. auto.
    + right. right. now exists pre.
  - destruct pre as [|p pre]; simpl in H; inversion H; subst.
    + left. now exists r.
    + destruct (IH _ _ _ H2) as [[mid ->]|[(-> & -> & ->)|[mid ->]]].
      * left. now exists mid.
      * right. left. auto.
      * right. right. now exists mid.
Qed.

End TraceFacts.

(** ** The constructor *)

Section CtorFacts.

Lemma parse_arg_frame t arg :
  bridges (parse_arg t arg) = bridges t /\
  fpga_models (parse_arg t arg) = fpga_models t /\
  tasks (parse_arg t arg) = tasks t /\
  pass (parse_arg t arg) = pass t.
Proof.
  unfold parse_arg.
  destruct (CStr.starts_with "+max-cycles=" arg),
           (CStr.starts_with "+profile-interval=" arg),
           (CStr.starts_with "+zero-out-dram" arg); simpl; auto.
Qed.

Lemma parse_args_frame args : forall t,
  bridges (fold_left parse_arg args t) = bridges t /\
  fpga_models (fold_left parse_arg args t) = fpga_models t /\
  tasks (fold_left parse_arg args t) = tasks t /\
  pass (fold_left parse_arg args t) = pass t.
Proof.
  induction args as [|a r IH]; intros t; simpl; [auto|].
  destruct (IH (parse_arg t a)) as (H1 & H2 & H3 & H4).
  destruct (parse_arg_frame t a) as (G1 & G2 & G3 & G4).
  rewrite H1, H2, H3, H4. auto.
Qed.

Lemma register_fold build : forall t,
  let t' := fold_left register build t in
  bridges t' = bridges t ++ registered_bridges build /\
  fpga_models t' = fpga_models t ++ registered_models build /\
  tasks t' = tasks t /\ pass t' = pass t /\ same_config t' t.
Proof.
  unfold same_config.
  induction build as [|r rest IH]; intros t; simpl.
  - rewrite !app_nil_r. auto 10.
  - destruct (IH (register t r)) as (H1 & H2 & H3 & H4 & H5 & H6 & H7).
    rewrite H1, H2, H3, H4, H5, H6, H7.
    destruct r; simpl; rewrite <- ?app_assoc; simpl; auto 10.
Qed.

(** What one argument does to each of the three settings. *)
Lemma parse_arg_max_cycles t a :
  max_cycles (parse_arg t a) =
  if CStr.starts_with "+max-cycles=" a
  then CStr.atoi (CStr.c_str_plus 12 a) else max_cycles t.
Proof.
  unfold parse_arg.
  destruct (CStr.starts_with "+max-cycles=" a),
           (CStr.starts_with "+profile-interval=" a),
           (CStr.starts_with "+zero-out-dram" a); reflexivity.
Qed.

Lemma parse_arg_profile_interval t a :
  profile_interval (parse_arg t a) =
  if CStr.starts_with "+profile-interval=" a
  then CStr.atoi (CStr.c_str_plus 18 a) else profile_interval t.
Proof.
  unfold parse_arg.
  destruct (CStr.starts_with "+max-cycles=" a),
           (CStr.starts_with "+profile-interval=" a),
           (CStr.starts_with "+zero-out-dram" a); reflexivity.
Qed.

Lemma parse_arg_zero_out_dram t a :
  do_zero_out_dram (parse_arg t a) =
  do_zero_out_dram t || CStr.starts_with "+zero-out-dram" a.
Proof.
  unfold parse_arg.
  destruct (CStr.starts_with "+max-cycles=" a),
           (CStr.starts_with "+profile-interval=" a),
           (CStr.starts_with "+zero-out-dram" a); simpl;
    now rewrite ?orb_true_r, ?orb_false_r.
Qed.

(** A setting read by [get], changed by one argument as [upd] says: over
    the whole list it keeps its value when no argument matches, and takes
    the value of the last argument that does. *)
Lemma parse_args_setting {V} (get : firesim_top_t -> V)
      (is_flag : string -> bool) (value : string -> V) :
  (forall t a, get (parse_arg t a) = if is_flag a then value a else get t) ->
  forall args t,
    ((forall a, In a args -> is_flag a = false) ->
     get (fold_left parse_arg args t) = get t) /\
    (forall pre a post,
        args = pre ++ a :: post -> is_flag a = true ->
        (forall x, In x post -> is_flag x = false) ->
        get (fold_left parse_arg args t) = value a).
Proof.
  intros Hstep.
  assert (Hnone : forall args t,
             (forall a, In a args -> is_flag a = false) ->
             get (fold_left parse_arg args t) = get t).
  { induction args as [|a r IH]; intros t H; simpl; [reflexivity|].
    rewrite IH by (intros x Hx; apply H; now right).
    rewrite Hstep, (H a) by (now left). reflexivity. }
  intros args t. split; [apply Hnone|].
  intros pre a post -> Ha Hpost.
  rewrite fold_left_app. simpl.
  rewrite Hnone by exact Hpost. now rewrite Hstep, Ha.
Qed.

Lemma parse_args_zero_out_dram args : forall t,
  do_zero_out_dram (fold_left parse_arg args t) =
  do_zero_out_dram t || existsb (CStr.starts_with "+zero-out-dram") args.
Proof.
  induction args as [|a r IH]; intros t; simpl.
  - now rewrite orb_false_r.
  - now rewrite IH, parse_arg_zero_out_dram, orb_assoc.
Qed.

(** The state of the object when the argument loop and the registrations
    are done, before the test on [profile_interval]. *)
Lemma ctor_shape args build :
  let t := firesim_top_body args build in
  let parsed := fold_left parse_arg args top_initial in
  same_config t parsed /\
  bridges t = registered_bridges build /\
  fpga_models t = registered_models build /\
  pass t = true /\
  tasks t = if profile_interval t =? -1 then []
            else [mk_task ProfileModelsTask 0 true].
Proof.
  cbv zeta. unfold firesim_top_body.
  change (set_profile_interval _ (set_max_cycles (-1) top_initial))
    with top_initial.
  set (t2 := fold_left parse_arg args top_initial).
  destruct (register_fold build t2) as (H1 & H2 & H3 & H4 & H5 & H6 & H7).
  cbv zeta in *.
  destruct (parse_args_frame args top_initial) as (G1 & G2 & G3 & G4).
  fold t2 in G1, G2, G3, G4. simpl in G1, G2, G3, G4.
  rewrite G1 in H1. rewrite G2 in H2. rewrite G3 in H3. rewrite G4 in H4.
  simpl in H1, H2.
  set (t3 := fold_left register build t2) in *.
  unfold same_config.
  destruct (profile_interval t3 =? -1) eqn:E; simpl.
  - rewrite E. auto 10.
  - rewrite E, H3. simpl. auto 10.
Qed.

(** The constructor is defined when [argv] holds the program name, and
    is then the body run on the arguments that follow it. *)
Lemma ctor_defined argv build t :
  firesim_top_ctor argv build = Some t ->
  argv <> [] /\ t = firesim_top_body (tl argv) build.
Proof.
  destruct argv as [|prog args]; simpl; [discriminate|].
  intros H. inversion H. split; [discriminate|reflexivity].
Qed.

(** [atoi] returns an [int]. *)
Lemma to_int_range v : - 2 ^ 31 <= CStr.to_int v < 2 ^ 31.
Proof.
  unfold CStr.to_int.
  pose proof (Z.mod_pos_bound (v + 2 ^ 31) (2 ^ 32) ltac:(lia)). lia.
Qed.

Lemma atoi_range s : - 2 ^ 31 <= CStr.atoi s < 2 ^ 31.
Proof. apply to_int_range. Qed.

(** A number that fits in [int] is returned as written. *)
Lemma to_int_id v : - 2 ^ 31 <= v < 2 ^ 31 -> CStr.to_int v = v.
Proof.
  intros H. unfold CStr.to_int.
  rewrite Z.mod_small by lia. lia.
Qed.

(** The settings hold [int] values: -1 or what [atoi] returned. *)
Lemma parse_args_int args : forall t,
  (- 2 ^ 31 <= max_cycles t < 2 ^ 31) ->
  (- 2 ^ 31 <= profile_interval t < 2 ^ 31) ->
  (- 2 ^ 31 <= max_cycles (fold_left parse_arg args t) < 2 ^ 31) /\
  (- 2 ^ 31 <= profile_interval (fold_left parse_arg args t) < 2 ^ 31).
Proof.
  induction args as [|a r IH]; intros t H1 H2; simpl; [auto|].
  apply IH.
  - rewrite parse_arg_max_cycles.
    destruct (CStr.starts_with _ a); [apply atoi_range|exact H1].
  - rewrite parse_arg_profile_interval.
    destruct (CStr.starts_with _ a); [apply atoi_range|exact H2].
Qed.

Lemma ctor_int args build :
  let t := firesim_top_body args build in
  (- 2 ^ 31 <= max_cycles t < 2 ^ 31) /\
  (- 2 ^ 31 <= profile_interval t < 2 ^ 31).
Proof.
  cbv zeta.
  destruct (ctor_shape args build) as ((E1 & E2 & _) & _).
  rewrite E1, E2.
  apply parse_args_int; simpl; lia.
Qed.


End CtorFacts.

(** ** The properties of the run *)

Section RunProperties.

Context {World : Type} {P : Simif World}.

Implicit Types (s : @state World) (w : World).

Lemma init_trace_calls t :
  model_inits (init_trace t) = fpga_models t /\
  bridge_inits (init_trace t) = bridges t /\
  model_finishes (init_trace t) = [] /\
  bridge_finishes (init_trace t) = [].
Proof.
  unfold model_inits, bridge_inits, model_finishes, bridge_finishes, init_trace.
  rewrite !flat_map_app, !flat_map_of_map. cbn.
  rewrite ?flat_map_single, ?flat_map_empty, ?app_nil_r. auto.
Qed.

Lemma finish_trace_calls t :
  model_inits (finish_trace t) = [] /\
  bridge_inits (finish_trace t) = [] /\
  model_finishes (finish_trace t) = fpga_models t /\
  bridge_finishes (finish_trace t) = bridges t.
Proof.
  unfold model_inits, bridge_inits, model_finishes, bridge_finishes, finish_trace.
  rewrite !flat_map_app, !flat_map_of_map. cbn.
  rewrite ?flat_map_single, ?flat_map_empty, ?app_nil_r. auto.
Qed.

(** The calls of a run that returned, by kind: neither the lines before
    the loop, nor the loop, nor the report call [init] or [finish]. *)
Lemma run_calls fuel s s' tr :
  run fuel s = Some (tt, s', tr) ->
  model_inits tr = fpga_models (self s) /\
  bridge_inits tr = bridges (self s) /\
  model_finishes tr = fpga_models (self s) /\
  bridge_finishes tr = bridges (self s).
Proof.
  intros H. apply run_inv in H.
  destruct H as (sh & st & loop_tr & sl & L & _ & _ & -> & _).
  apply loop_trace_events in L.
  destruct (init_trace_calls (self s)) as (I1 & I2 & I3 & I4).
  destruct (finish_trace_calls (self s)) as (F1 & F2 & F3 & F4).
  unfold model_inits, bridge_inits, model_finishes, bridge_finishes in *.
  rewrite !flat_map_app.
  rewrite I1, I2, I3, I4, F1, F2, F3, F4.
  rewrite !commence_trace_no by reflexivity.
  rewrite !(loop_events_no _ loop_tr) by (try exact L; now intros []).
  unfold report_trace. cbn [flat_map app].
  rewrite ?app_nil_r. auto.
Qed.

(** No [init] of a bridge follows the reset in a run that returned. *)
Lemma run_reset_then_no_init fuel s s' tr :
  run fuel s = Some (tt, s', tr) ->
  exists loop_tr rest,
    tr = (init_trace (self s)
          ++ (if do_zero_out_dram (self s)
              then [EvPrint MsgZeroing; EvZeroOutDram] else [])
          ++ [EvPrint MsgCommencing])
         ++ EvTargetReset 50 :: loop_tr ++ rest /\
    loop_trace (bridges (self s)) loop_tr /\
    bridge_inits (loop_tr ++ rest) = [] /\
    forall b, ~ init_after_reset tr b.
Proof.
  intros H. apply run_inv in H.
  destruct H as (sh & st & loop_tr & sl & L & _ & _ & -> & _).
  set (rest := report_trace (self s) sh st (world sl)
               ++ [EvExpect (final_exit_code (self s) (world sl) =? 0)]
               ++ finish_trace (self s)).
  set (pre := init_trace (self s)
              ++ (if do_zero_out_dram (self s)
                  then [EvPrint MsgZeroing; EvZeroOutDram] else [])
              ++ [EvPrint MsgCommencing]).
  assert (E : init_trace (self s) ++ commence_trace (self s) ++ loop_tr ++ rest
              = pre ++ EvTargetReset 50 :: loop_tr ++ rest).
  { unfold pre, commence_trace. rewrite <- !app_assoc. reflexivity. }
  assert (N : bridge_inits (loop_tr ++ rest) = []).
  { destruct (finish_trace_calls (self s)) as (_ & F2 & _).
    unfold bridge_inits in *. unfold rest. rewrite !flat_map_app, F2.
    rewrite (loop_events_no _ loop_tr)
      by (try (apply loop_trace_events in L; exact L); now intros []).
    reflexivity. }
  assert (R : ~ In (EvTargetReset 50) pre).
  { unfold pre, init_trace. rewrite !in_app_iff, !in_map_iff.
    intros [[(x & Hx & _)|(x & Hx & _)]|[Hz|Hc]]; try discriminate.
    - destruct (do_zero_out_dram (self s)); simpl in Hz;
        intuition discriminate.
    - simpl in Hc. intuition discriminate. }
  exists loop_tr, rest. rewrite E. repeat split; try assumption.
  intros b (pre' & post' & Hsplit & Hin).
  destruct (split_at_event _ _ _ _ _ _ Hsplit)
    as [[mid Hm]|[(_ & _ & ->)|[mid Hm]]].
  - apply R. rewrite Hm. apply in_elt.
  - rewrite N in Hin. exact Hin.
  - rewrite Hm in N. unfold bridge_inits in N, Hin.
    rewrite flat_map_app in N. apply app_eq_nil in N. destruct N as [_ N].
    simpl in N. rewrite N in Hin. exact Hin.
Qed.

(** C1. Once the control loop has stopped, [run] returns, and its last
    calls are: the four lines of the report (with the verdict), then
    [expect(!exitcode)], then [finish()] on every FPGA model and then on
    every bridge driver, in the order of the vectors, whatever the verdict;
    no [finish()] comes earlier.  A non-zero exit code clears the [pass]
    flag of the simulator, which is what the calling process sees, and the
    [finish()] calls are still made. *)
Theorem finish_runs_after_report fuel s :
  loop_stops fuel s ->
  exists s' pre sh st w,
    run fuel s =
    Some (tt, s',
          pre ++ report_trace (self s) sh st w
              ++ [EvExpect (final_exit_code (self s) w =? 0)]
              ++ map EvModelFinish (fpga_models (self s))
              ++ map EvBridgeFinish (bridges (self s))) /\
    model_finishes pre = [] /\ bridge_finishes pre = [] /\
    pass (self s') = pass (self s) && (final_exit_code (self s) w =? 0) /\
    (final_exit_code (self s) w <> 0 -> pass (self s') = false).
Proof.
  intros Hstop. destruct (run_returns fuel s Hstop) as (s' & tr & E).
  pose proof (run_inv _ _ _ _ E) as H.
  destruct H as (sh & st & loop_tr & sl & L & G & _ & -> & Hs).
  exists s', (init_trace (self s) ++ commence_trace (self s) ++ loop_tr),
    sh, st, (world sl).
  apply loop_trace_events in L.
  destruct (init_trace_calls (self s)) as (_ & _ & I3 & I4).
  repeat split.
  - rewrite E. unfold finish_trace. rewrite <- !app_assoc. reflexivity.
  - unfold model_finishes in *. rewrite !flat_map_app, I3.
    rewrite commence_trace_no by reflexivity.
    now rewrite (loop_events_no _ loop_tr) by (try exact L; now intros []).
  - unfold bridge_finishes in *. rewrite !flat_map_app, I4.
    rewrite commence_trace_no by reflexivity.
    now rewrite (loop_events_no _ loop_tr) by (try exact L; now intros []).
  - rewrite Hs. reflexivity.
  - intros Hc. rewrite Hs. simpl.
    apply Z.eqb_neq in Hc. rewrite Hc. apply andb_false_r.
Qed.

(** C2, as the code has it.  In every run that returned, [init()] is
    called on each registered bridge driver exactly once (the [init]
    calls of the trace are the vector [bridges], in order), all of them
    before [target_reset(50)], which is the last call before the loop;
    no [init()] follows the reset, in the loop or after it. *)
Theorem bridge_init_once_before_reset fuel s s' tr :
  run fuel s = Some (tt, s', tr) ->
  bridge_inits tr = bridges (self s) /\
  exists pre loop_tr rest,
    tr = pre ++ EvTargetReset 50 :: loop_tr ++ rest /\
    bridge_inits pre = bridges (self s) /\
    loop_trace (bridges (self s)) loop_tr /\
    bridge_inits (loop_tr ++ rest) = [] /\
    forall b, ~ init_after_reset tr b.
Proof.
  intros H. split; [apply (run_calls _ _ _ _ H)|].
  destruct (run_reset_then_no_init _ _ _ _ H) as (loop_tr & rest & E & L & N & R).
  eexists _, loop_tr, rest. split; [exact E|]. repeat split; try assumption.
  destruct (init_trace_calls (self s)) as (_ & I2 & _).
  unfold bridge_inits in *. rewrite !flat_map_app, I2.
  destruct (do_zero_out_dram (self s)); simpl; now rewrite app_nil_r.
Qed.

Lemma first_nonzero_all_zero l :
  (forall c, In c l -> c = 0) -> first_nonzero l = 0.
Proof.
  induction l as [|c r IH]; intros H; simpl; [reflexivity|].
  rewrite (H c) by (now left). simpl. apply IH. intros x Hx. apply H. now right.
Qed.

Lemma first_nonzero_first pre c post :
  (forall x, In x pre -> x = 0) -> c <> 0 ->
  first_nonzero (pre ++ c :: post) = c.
Proof.
  induction pre as [|x r IH]; intros H Hc; simpl.
  - apply Z.eqb_neq in Hc. now rewrite Hc.
  - rewrite (H x) by (now left). simpl. apply IH; [|exact Hc].
    intros y Hy. apply H. now right.
Qed.

(** C3. [exit_code()] changes nothing and returns the code of the first
    driver, in the order of the vector [bridges], whose [exit_code()] is
    not 0: 0 when every driver reports 0, and the code of [b] when [b]
    reports a non-zero code and all the drivers before it report 0.  For
    drivers reporting 0, 0, 3 and 5 the result is 3, not 5 and not the
    sum 8. *)
Theorem exit_code_first_nonzero s :
  let bs := bridges (self s) in
  let code := fun b => bd_exit_code b (world s) in
  exists c,
    exit_code s = Some (c, s, []) /\
    c = first_nonzero (map code bs) /\
    ((forall b, In b bs -> code b = 0) -> c = 0) /\
    (forall pre b post,
        bs = pre ++ b :: post ->
        (forall x, In x pre -> code x = 0) -> code b <> 0 -> c = code b) /\
    (map code bs = [0; 0; 3; 5] -> c = 3 /\ c <> 5 /\ c <> 0 + 0 + 3 + 5).
Proof.
  cbv zeta. eexists. split; [apply exit_code_eq|].
  unfold exit_codes. repeat split.
  - intros H. apply first_nonzero_all_zero.
    intros c Hc. apply in_map_iff in Hc. destruct Hc as (b & <- & Hb). now apply H.
  - intros pre b post -> Hpre Hb. rewrite map_app. simpl.
    apply first_nonzero_first; [|exact Hb].
    intros x Hx. apply in_map_iff in Hx. destruct Hx as (y & <- & Hy). now apply Hpre.
  - rewrite H. reflexivity.
  - rewrite H. discriminate.
  - rewrite H. discriminate.
Qed.

Lemma any_terminate_iff bs w :
  any_terminate bs w = true <-> exists e, In e bs /\ bd_terminate e w = true.
Proof. unfold any_terminate. apply existsb_exists. Qed.

(** C4. [simulation_complete()] changes nothing and is true exactly when
    [terminate()] is true for at least one registered driver.  The outer
    loop ends at its test, without another pass, as soon as one driver
    terminates or the timeout predicate holds, whatever the other drivers
    say; the inner loop ends at its test as soon as one driver terminates;
    and the outer loop does not end for any other reason. *)
Theorem termination_is_a_disjunction s :
  let bs := bridges (self s) in
  let timed_out := fun s0 : state =>
    sched_has_timed_out (max_cycles (self s0)) (world s0) in
  (exists c, simulation_complete s = Some (c, s, []) /\
             (c = true <-> exists e, In e bs /\ bd_terminate e (world s) = true)) /\
  (forall fuel,
      (exists e, In e bs /\ bd_terminate e (world s) = true) \/ timed_out s = true ->
      main_loop (S fuel) s = Some (tt, s, [])) /\
  (forall fuel,
      (exists e, In e bs /\ bd_terminate e (snd (sim_done (world s))) = true) ->
      while_ (S fuel) inner_cond tick_bridges s =
      Some (tt, mk_state (self s) (snd (sim_done (world s))), [])) /\
  (forall fuel s' tr,
      main_loop fuel s = Some (tt, s', tr) ->
      (exists e, In e (bridges (self s')) /\ bd_terminate e (world s') = true)
      \/ timed_out s' = true).
Proof.
  cbv zeta. repeat split.
  - eexists. split; [apply simulation_complete_eq|]. apply any_terminate_iff.
  - intros fuel H. unfold main_loop. apply while_false.
    rewrite outer_cond_eq. f_equal. f_equal. f_equal.
    destruct H as [H|H].
    + apply any_terminate_iff in H. now rewrite H.
    + rewrite H. apply andb_false_r.
  - intros fuel H. apply while_false.
    rewrite inner_cond_eq. cbv zeta. f_equal. f_equal. f_equal.
    apply any_terminate_iff in H. rewrite H. apply andb_false_r.
  - intros fuel s' tr H. apply main_loop_inv in H.
    destruct H as (_ & _ & H). apply orb_true_iff in H.
    destruct H as [H|H]; [left; now apply any_terminate_iff|now right].
Qed.

(** C5. The verdict line of a run that returned is chosen in this order:
    a non-zero aggregated exit code gives FAILED (code), whether or not
    the timeout holds; otherwise no driver terminating together with the
    timeout gives FAILED (timeout), and then the exit code is 0,
    [expect] is given true and the [pass] flag is left as it was;
    otherwise the line is PASSED. *)
Theorem verdict_precedence fuel s s' tr :
  run fuel s = Some (tt, s', tr) ->
  exists pre sh st w,
    let t := self s in
    let code := final_exit_code t w in
    let complete := any_terminate (bridges t) (report_world w) in
    let timed_out := sched_has_timed_out (max_cycles t) (report_world w) in
    let end_cycle := report_end_cycle w in
    tr = pre ++ report_trace t sh st w ++ [EvExpect (code =? 0)] ++ finish_trace t /\
    nth_error (report_trace t sh st w) 1 = Some (EvPrint (final_verdict t w)) /\
    (code <> 0 -> final_verdict t w = MsgFailedCode code end_cycle) /\
    (code = 0 -> complete = false -> timed_out = true ->
     final_verdict t w = MsgFailedTimeout end_cycle /\
     pass (self s') = pass t) /\
    (code = 0 -> (complete = true \/ timed_out = false) ->
     final_verdict t w = MsgPassed end_cycle).
Proof.
  intros H. apply run_inv in H.
  destruct H as (sh & st & loop_tr & sl & _ & G & _ & -> & Hs).
  exists (init_trace (self s) ++ commence_trace (self s) ++ loop_tr),
    sh, st, (world sl).
  cbv zeta. unfold final_verdict, verdict_of.
  split; [now rewrite <- !app_assoc|]. split; [reflexivity|].
  split; [|split].
  - intros Hc. apply Z.eqb_neq in Hc. now rewrite Hc.
  - intros Hc Hd Ht. split.
    + rewrite Hc, Hd, Ht. reflexivity.
    + rewrite Hs, Hc. simpl. apply andb_true_r.
  - intros Hc [Hd|Hd]; rewrite Hc, Hd; simpl; [reflexivity|].
    now rewrite andb_false_r.
Qed.

Lemma flat_map_concat {A B} (f : A -> list B) (l : list (list A)) :
  flat_map f (List.concat l) = List.concat (map (flat_map f) l).
Proof.
  induction l as [|x r IH]; simpl; [reflexivity|].
  now rewrite flat_map_app, IH.
Qed.

Lemma bridge_ticks_rounds bs k :
  bridge_ticks (List.concat (repeat (map EvBridgeTick bs) k)) =
  List.concat (repeat bs k).
Proof.
  unfold bridge_ticks. rewrite flat_map_concat, map_repeat.
  rewrite flat_map_of_map. cbn. now rewrite flat_map_single.
Qed.

Lemma bridge_ticks_profiles prof : Forall is_profile prof -> bridge_ticks prof = [].
Proof.
  intros F. apply flat_map_none. eapply Forall_impl; [|exact F]. now intros [].
Qed.

(** The ticks of the loop are whole rounds over the drivers. *)
Lemma loop_trace_ticks bs tr :
  loop_trace bs tr -> exists rounds, bridge_ticks tr = List.concat (repeat bs rounds).
Proof.
  intros (its & F & ->).
  induction F as [|it r Hit _ (rounds & IH)]; simpl.
  - now exists 0%nat.
  - destruct Hit as (prof & n & k & Fp & ->).
    exists (k + rounds)%nat. unfold bridge_ticks in *.
    rewrite !flat_map_app, IH.
    fold (bridge_ticks prof). rewrite (bridge_ticks_profiles _ Fp).
    fold (bridge_ticks (List.concat (repeat (map EvBridgeTick bs) k))).
    rewrite bridge_ticks_rounds. cbn [flat_map app].
    apply concat_repeat_app.
Qed.

(** The ticks of a run that returned are those of its loop. *)
Lemma run_ticks t sh st w loop_tr code :
  bridge_ticks (init_trace t ++ commence_trace t ++ loop_tr
                ++ report_trace t sh st w ++ [EvExpect code] ++ finish_trace t)
  = bridge_ticks loop_tr.
Proof.
  unfold bridge_ticks. rewrite !flat_map_app.
  rewrite commence_trace_no by reflexivity.
  unfold init_trace, finish_trace, report_trace.
  rewrite !flat_map_app, !flat_map_of_map. cbn.
  now rewrite !flat_map_empty, !app_nil_r.
Qed.

(** A run whose loop stops, in full. *)
Lemma run_total fuel s :
  loop_stops fuel s ->
  exists s' sh st sl loop_tr,
    run fuel s =
    Some (tt, s',
          init_trace (self s) ++ commence_trace (self s) ++ loop_tr
          ++ report_trace (self s) sh st (world sl)
          ++ [EvExpect (final_exit_code (self s) (world sl) =? 0)]
          ++ finish_trace (self s)) /\
    (exists w2, main_loop fuel (mk_state (self s) w2) = Some (tt, sl, loop_tr)) /\
    loop_trace (bridges (self s)) loop_tr /\
    same_but_tasks (self s) (self sl) /\
    self s' = set_pass (pass (self s) && (final_exit_code (self s) (world sl) =? 0))
                       (self sl).
Proof.
  intros Hstop. destruct (run_returns fuel s Hstop) as (s' & tr & E).
  destruct (run_anatomy _ _ _ _ E) as (sh & st & loop_tr & sl & (w2 & L) & Htr & Hs).
  exists s', sh, st, sl, loop_tr.
  split; [now rewrite E, Htr|]. split; [now exists w2|].
  destruct (main_loop_inv _ _ _ _ L) as (G1 & G2 & _).
  repeat split; assumption.
Qed.

(** When the platform is not done and no driver has terminated, the
    inner loop makes a round of ticks. *)
Lemma inner_loop_first_round fuel s s' tr :
  while_ fuel inner_cond tick_bridges s = Some (tt, s', tr) ->
  fst (sim_done (world s)) = false ->
  any_terminate (bridges (self s)) (snd (sim_done (world s))) = false ->
  exists rest, tr = map EvBridgeTick (bridges (self s)) ++ rest.
Proof.
  intros H Hd Ht. destruct fuel as [|fuel]; [discriminate|]. simpl in H.
  rewrite (bind_eq _ _ _ _ _ _ (inner_cond_eq s)) in H.
  cbv zeta in H. rewrite Hd, Ht in H. cbn [negb andb] in H.
  set (s1 := mk_state (self s) _) in H.
  rewrite (bind_eq _ _ _ _ _ _ (tick_bridges_eq s1)) in H.
  destruct (while_ fuel inner_cond tick_bridges _) as [[[[] s2] t2]|];
    [|discriminate].
  inversion H; subst. cbn [app self s1]. eexists. reflexivity.
Qed.

(** C6. For every list of registrations, the vectors [fpga_models] and
    [bridges] hold the registered models and drivers in registration
    order.  One execution of the body of the inner loop calls [tick()] on
    every driver once, in that order; the inner loop makes whole rounds of
    such ticks, and at least one when the platform is not done and no
    driver has terminated.  A run whose loop stops makes exactly these
    calls: [init()] on every model and then on every driver in that order,
    the lines before the loop and the reset, the calls of the loop, the
    report and [expect], and [finish()] on every model and then on every
    driver in that order.  The [tick()] calls of the whole run, in the
    order they are made, are whole rounds over the drivers in registration
    order, and no other [init()] or [finish()] is made: each is called
    once per registered component. *)
Theorem calls_follow_registration_order argv build t :
  firesim_top_ctor argv build = Some t ->
  let ms := registered_models build in
  let bs := registered_bridges build in
  fpga_models t = ms /\ bridges t = bs /\
  (forall w0, exists w1,
      tick_bridges (mk_state t w0) = Some (tt, mk_state t w1, map EvBridgeTick bs)) /\
  (forall fuel w0 s' tr,
      while_ fuel inner_cond tick_bridges (mk_state t w0) = Some (tt, s', tr) ->
      (exists k, tr = List.concat (repeat (map EvBridgeTick bs) k)) /\
      (fst (sim_done w0) = false ->
       any_terminate bs (snd (sim_done w0)) = false ->
       exists rest, tr = map EvBridgeTick bs ++ rest)) /\
  (forall fuel w,
      loop_stops fuel (mk_state t w) ->
      exists s' tr sh st sl loop_tr rounds,
        run fuel (mk_state t w) = Some (tt, s', tr) /\
        tr = (map EvModelInit ms ++ map EvBridgeInit bs)
             ++ commence_trace t ++ loop_tr
             ++ report_trace t sh st (world sl)
             ++ [EvExpect (final_exit_code t (world sl) =? 0)]
             ++ (map EvModelFinish ms ++ map EvBridgeFinish bs) /\
        loop_trace bs loop_tr /\
        bridge_ticks tr = List.concat (repeat bs rounds) /\
        model_inits tr = ms /\ bridge_inits tr = bs /\
        model_finishes tr = ms /\ bridge_finishes tr = bs).
Proof.
  intros Hc. cbv zeta.
  destruct (ctor_defined _ _ _ Hc) as (_ & ->).
  destruct (ctor_shape (tl argv) build) as (_ & Hb & Hm & _). cbv zeta in Hb, Hm.
  set (t := firesim_top_body (tl argv) build) in *.
  rewrite <- Hb, <- Hm.
  split; [reflexivity|]. split; [reflexivity|]. split; [|split].
  - intros w0. eexists. rewrite tick_bridges_eq. reflexivity.
  - intros fuel w0 s' tr H. split.
    + exact (proj2 (inner_loop_inv _ _ _ _ H)).
    + exact (inner_loop_first_round _ _ _ _ H).
  - intros fuel w Hstop.
    destruct (run_total _ _ Hstop) as (s' & sh & st & sl & loop_tr & E & _ & L & _).
    cbn [self] in E, L.
    destruct (loop_trace_ticks _ _ L) as (rounds & R).
    destruct (run_calls _ _ _ _ E) as (C1 & C2 & C3 & C4). cbn [self] in C1, C2, C3, C4.
    eexists s', _, sh, st, sl, loop_tr, rounds.
    split; [exact E|]. split; [reflexivity|]. split; [exact L|].
    split; [now rewrite run_ticks|].
    repeat split; assumption.
Qed.

(** C7. For every argument vector that holds the program name, with
    [args] the arguments after it: [max_cycles] is -1 when no argument
    starts with "+max-cycles=", and is the [int] that [atoi] returns for
    what follows the prefix in the last argument that does;
    [profile_interval] likewise with "+profile-interval=";
    [do_zero_out_dram] is set exactly when some argument starts with
    "+zero-out-dram".  Both numbers are in the range of [int].  A run
    whose loop stops returns with the three settings as the constructor
    set them. *)
Theorem startup_arguments argv build t :
  firesim_top_ctor argv build = Some t ->
  let args := tl argv in
  let is_max := CStr.starts_with "+max-cycles=" in
  let is_prof := CStr.starts_with "+profile-interval=" in
  ((forall a, In a args -> is_max a = false) -> max_cycles t = -1) /\
  (forall pre a post,
      args = pre ++ a :: post -> is_max a = true ->
      (forall x, In x post -> is_max x = false) ->
      max_cycles t = CStr.atoi (CStr.c_str_plus 12 a)) /\
  ((forall a, In a args -> is_prof a = false) -> profile_interval t = -1) /\
  (forall pre a post,
      args = pre ++ a :: post -> is_prof a = true ->
      (forall x, In x post -> is_prof x = false) ->
      profile_interval t = CStr.atoi (CStr.c_str_plus 18 a)) /\
  do_zero_out_dram t = existsb (CStr.starts_with "+zero-out-dram") args /\
  (- 2 ^ 31 <= max_cycles t < 2 ^ 31) /\
  (- 2 ^ 31 <= profile_interval t < 2 ^ 31) /\
  (forall fuel w,
      loop_stops fuel (mk_state t w) ->
      exists s' tr,
        run fuel (mk_state t w) = Some (tt, s', tr) /\ same_config (self s') t).
Proof.
  intros Hc. cbv zeta.
  destruct (ctor_defined _ _ _ Hc) as (_ & ->).
  destruct (ctor_int (tl argv) build) as (R1 & R2). cbv zeta in R1, R2.
  destruct (ctor_shape (tl argv) build) as ((E1 & E2 & E3) & _).
  cbv zeta in E1, E2, E3.
  set (t := firesim_top_body (tl argv) build) in *.
  split; [|split; [|split; [|split; [|split; [|split; [exact R1|split; [exact R2|]]]]]]].
  - rewrite E1.
    exact (proj1 (parse_args_setting max_cycles _ _ parse_arg_max_cycles
                    (tl argv) top_initial)).
  - rewrite E1.
    exact (proj2 (parse_args_setting max_cycles _ _ parse_arg_max_cycles
                    (tl argv) top_initial)).
  - rewrite E2.
    exact (proj1 (parse_args_setting profile_interval _ _ parse_arg_profile_interval
                    (tl argv) top_initial)).
  - rewrite E2.
    exact (proj2 (parse_args_setting profile_interval _ _ parse_arg_profile_interval
                    (tl argv) top_initial)).
  - rewrite E3. now rewrite parse_args_zero_out_dram.
  - intros fuel w Hstop.
    destruct (run_total _ _ Hstop) as (s' & sh & st & sl & loop_tr & E & _ & _ & G & Hs).
    eexists s', _. split; [exact E|].
    apply same_but_tasks_fields in G. cbn [self] in G, Hs.
    destruct G as (G1 & G2 & G3 & _).
    unfold same_config. rewrite Hs. simpl. auto.
Qed.

Lemma no_zeroing_after_commence fuel s s' tr :
  run fuel s = Some (tt, s', tr) ->
  exists rest,
    tr = init_trace (self s)
         ++ (if do_zero_out_dram (self s)
             then [EvPrint MsgZeroing; EvZeroOutDram] else [])
         ++ [EvPrint MsgCommencing] ++ rest /\
    ~ In EvZeroOutDram (init_trace (self s)) /\
    ~ In EvZeroOutDram rest.
Proof.
  intros H. apply run_inv in H.
  destruct H as (sh & st & loop_tr & sl & L & _ & _ & -> & _).
  apply loop_trace_events in L.
  exists (EvTargetReset 50 :: loop_tr
          ++ report_trace (self s) sh st (world sl)
          ++ [EvExpect (final_exit_code (self s) (world sl) =? 0)]
          ++ finish_trace (self s)).
  split; [|split].
  - unfold commence_trace. rewrite <- !app_assoc. reflexivity.
  - unfold init_trace. rewrite in_app_iff, !in_map_iff.
    intros [(x & Hx & _)|(x & Hx & _)]; discriminate.
  - unfold finish_trace. intros [Hr|Hin]; [discriminate|].
    rewrite !in_app_iff, !in_map_iff in Hin.
    destruct Hin as [Hl|[Hp|[He|[(x & Hx & _)|(x & Hx & _)]]]]; try discriminate.
    + rewrite Forall_forall in L. exact (L _ Hl).
    + unfold report_trace in Hp. simpl in Hp. intuition discriminate.
    + simpl in He. intuition discriminate.
Qed.

(** The part of [run] before the loop always returns. *)
Lemma run_before_loop s :
  exists starts w1,
    (run_init ;; run_commence) s =
    Some (starts, mk_state (self s) w1, init_trace (self s) ++ commence_trace (self s)).
Proof.
  destruct (run_init_inv s) as (w1 & E1).
  rewrite (bind_eq _ _ _ _ _ _ E1).
  set (s1 := mk_state (self s) w1).
  destruct (run_commence_inv s1) as (sh & st & w2 & E2).
  rewrite E2. exists (sh, st), w2. reflexivity.
Qed.

(** C8. The task table the constructor leaves holds one task when the
    profiling interval is not -1 and none when it is; that task is the
    closure over [profile_models], which calls [profile()] on every FPGA
    model in order and returns [profile_interval] as a [uint64_t].  The
    part of [run] before the loop always returns, and its calls are: the
    [init] calls, then, when [do_zero_out_dram] is set, the zeroing line
    and [zero_out_dram()], then "Commencing simulation." and the reset.
    A run whose loop stops returns, and in it [zero_out_dram()] is called
    once, just before "Commencing simulation.", when [do_zero_out_dram]
    is set, and never when it is not. *)
Theorem builtin_profile_task_and_zeroing argv build t :
  firesim_top_ctor argv build = Some t ->
  let zeroing := if do_zero_out_dram t
                 then [EvPrint MsgZeroing; EvZeroOutDram] else [] in
  (profile_interval t <> -1 <-> tasks t = [mk_task ProfileModelsTask 0 true]) /\
  (profile_interval t = -1 <-> tasks t = []) /\
  (forall s, exists w',
      run_task ProfileModelsTask s =
      Some (to_uint64 (profile_interval (self s)), mk_state (self s) w',
            map EvModelProfile (fpga_models (self s)))) /\
  (forall w, exists starts w1,
      (run_init ;; run_commence) (mk_state t w) =
      Some (starts, mk_state t w1,
            init_trace t ++ zeroing ++ [EvPrint MsgCommencing; EvTargetReset 50])) /\
  (forall fuel w,
      loop_stops fuel (mk_state t w) ->
      exists s' rest,
        run fuel (mk_state t w) =
        Some (tt, s', init_trace t ++ zeroing ++ [EvPrint MsgCommencing] ++ rest) /\
        ~ In EvZeroOutDram (init_trace t) /\ ~ In EvZeroOutDram rest).
Proof.
  intros Hc. cbv zeta.
  destruct (ctor_defined _ _ _ Hc) as (_ & ->).
  destruct (ctor_shape (tl argv) build) as (_ & _ & _ & _ & Ht). cbv zeta in Ht.
  set (t := firesim_top_body (tl argv) build) in *.
  split; [|split; [|split; [|split]]].
  - rewrite Ht. destruct (Z.eqb_spec (profile_interval t) (-1));
      split; intros H; try reflexivity; try congruence; discriminate.
  - rewrite Ht. destruct (Z.eqb_spec (profile_interval t) (-1));
      split; intros H; try reflexivity; try congruence; discriminate.
  - intros s. eexists. simpl. apply profile_models_eq.
  - intros w. destruct (run_before_loop (mk_state t w)) as (starts & w1 & E).
    exists starts, w1. rewrite E. reflexivity.
  - intros fuel w Hstop.
    destruct (run_returns _ _ Hstop) as (s' & tr & E).
    destruct (no_zeroing_after_commence _ _ _ _ E) as (rest & Htr & N1 & N2).
    exists s', rest. split; [now rewrite E, Htr|]. split; assumption.
Qed.

Lemma SFcompare_antisym a b :
  SFcompare b a = option_map CompOpp (SFcompare a b).
Proof.
  destruct a as [sa|sa| |sa ma ea], b as [sb|sb| |sb mb eb]; simpl;
    try reflexivity;
    try (destruct sa; reflexivity); try (destruct sb; reflexivity);
    try (destruct sa, sb; reflexivity).
  destruct sa, sb; simpl; try reflexivity;
    rewrite (Z.compare_antisym ea eb); destruct (ea ?= eb); simpl;
      try reflexivity.
  - rewrite CompOpp_involutive. f_equal.
    exact (Pos.compare_cont_antisym mb ma Eq).
  - f_equal. symmetry. exact (Pos.compare_cont_antisym ma mb Eq).
Qed.

Lemma dgt_spec a b : dgt a b = true <-> SFcompare a b = Some Gt.
Proof.
  unfold dgt, SFltb. rewrite (SFcompare_antisym a b).
  destruct (SFcompare a b) as [[]|]; simpl; split; congruence.
Qed.

(** The unit of the speed line, by the comparison with 1000.0. *)
Lemma speed_message_cases sim_time speed :
  (SFcompare speed (double_of_Z 1000) = Some Gt ->
   speed_message sim_time speed
   = MsgSpeedMHz sim_time (ddiv speed (double_of_Z 1000))) /\
  (SFcompare speed (double_of_Z 1000) <> Some Gt ->
   speed_message sim_time speed = MsgSpeedKHz sim_time speed).
Proof.
  unfold speed_message.
  pose proof (dgt_spec speed (double_of_Z 1000)) as D.
  split.
  - intros H. apply D in H. now rewrite H.
  - intros H. destruct (dgt speed (double_of_Z 1000)); [|reflexivity].
    exfalso. apply H, D. reflexivity.
Qed.

(** C9. [run] prints the speed line as the third line of its report,
    between the verdict and the FMR line.  With [end_cycle] and the clock
    read when the loop has stopped, the speed is
    [(double) end_cycle / (sim_time * 1000.0)], in kHz; the line is the
    MHz line, with the speed divided by 1000.0, when the speed compares
    strictly greater than 1000.0, and in every other case, equality with
    1000.0 among them, the KHz line with the speed itself.  This holds of
    the report piece of [run] in every state, and of every run whose loop
    stops in state [sl] after starting at time [snd starts]. *)
Theorem speed_unit_threshold sh st s :
  let thousand := double_of_Z 1000 in
  let unit_of := fun (time speed : double) (line : message) =>
    (SFcompare speed thousand = Some Gt ->
     line = MsgSpeedMHz time (ddiv speed thousand)) /\
    (SFcompare speed thousand <> Some Gt -> line = MsgSpeedKHz time speed) /\
    (SFcompare speed thousand = Some Eq -> line = MsgSpeedKHz time speed) in
  let speed_at := fun (w : World) (time : double) =>
    ddiv (double_of_Z (report_end_cycle w)) (dmul time thousand) in
  (exists code s' verdict line fmr,
      run_report sh st s =
      Some (code, s',
            [EvPrint MsgNewline; EvPrint verdict; EvPrint line; EvPrint (MsgFMR fmr)]) /\
      let time := sim_diff_secs (report_end_time (world s)) st in
      unit_of time (speed_at (world s) time) line) /\
  (forall fuel starts s1 t0 sl loop_tr,
      (run_init ;; run_commence) s = Some (starts, s1, t0) ->
      main_loop fuel s1 = Some (tt, sl, loop_tr) ->
      exists s' verdict line fmr,
        run fuel s =
        Some (tt, s',
              t0 ++ loop_tr
              ++ [EvPrint MsgNewline; EvPrint verdict; EvPrint line; EvPrint (MsgFMR fmr)]
              ++ [EvExpect (final_exit_code (self s) (world sl) =? 0)]
              ++ finish_trace (self s)) /\
        let time := sim_diff_secs (report_end_time (world sl)) (snd starts) in
        unit_of time (speed_at (world sl) time) line).
Proof.
  cbv zeta.
  assert (U : forall time speed,
             (SFcompare speed (double_of_Z 1000) = Some Gt ->
              speed_message time speed
              = MsgSpeedMHz time (ddiv speed (double_of_Z 1000))) /\
             (SFcompare speed (double_of_Z 1000) <> Some Gt ->
              speed_message time speed = MsgSpeedKHz time speed) /\
             (SFcompare speed (double_of_Z 1000) = Some Eq ->
              speed_message time speed = MsgSpeedKHz time speed)).
  { intros time speed. destruct (speed_message_cases time speed) as [C1 C2].
    split; [exact C1|]. split; [exact C2|].
    intros H. apply C2. congruence. }
  split.
  - eexists _, _, _, _, _. split; [rewrite run_report_eq; reflexivity|].
    apply U.
  - intros fuel starts s1 t0 sl loop_tr E0 E3.
    destruct (run_from_loop_end _ _ _ _ _ _ _ E0 E3) as (s' & E).
    eexists s', _, _, _. split; [rewrite E; reflexivity|].
    apply U.
Qed.












End RunProperties.

(** ** Runs of the demo platform *)

Section DemoRuns.

Import Demo.

Example atoi_digits_only : CStr.atoi "1000" = 1000.
Proof. reflexivity. Qed.

Example atoi_sign_and_tail : CStr.atoi "  -42abc" = -42.
Proof. reflexivity. Qed.

Example atoi_no_digits : CStr.atoi "abc" = 0.
Proof. reflexivity. Qed.

(** The run in which driver 1 reports code 3: the verdict is FAILED
    (code), [expect] is given false, and the [finish] calls follow. *)
Example run_fail_tail :
  exists s' pre speed fmr,
    run 20 s_fail =
    Some (tt, s',
          pre ++ [EvPrint MsgNewline; EvPrint (MsgFailedCode 3 30);
                  EvPrint speed; EvPrint fmr; EvExpect false;
                  EvModelFinish 7%nat; EvBridgeFinish 0%nat; EvBridgeFinish 1%nat])
    /\ pass (self s') = false.
Proof.
  eexists _, [_; _; _; _; _; _; _; _; _; _; _; _; _; _; _; _], _, _.
  split; vm_compute; reflexivity.
Qed.

(** The run in which no driver stops before [max_cycles]: FAILED
    (timeout), [expect] is given true. *)
Example run_timeout_tail :
  exists s' pre speed fmr,
    run 20 s_timeout =
    Some (tt, s',
          pre ++ [EvPrint MsgNewline; EvPrint (MsgFailedTimeout 20);
                  EvPrint speed; EvPrint fmr; EvExpect true;
                  EvModelFinish 7%nat; EvBridgeFinish 0%nat; EvBridgeFinish 1%nat])
    /\ pass (self s') = true.
Proof.
  eexists _, [_; _; _; _; _; _; _; _; _; _; _], _, _.
  split; vm_compute; reflexivity.
Qed.

Lemma finish_runs_after_report_witness :
  loop_stops 20 s_fail /\
  exists s' pre sh st w,
    run 20 s_fail =
    Some (tt, s',
          pre ++ report_trace (self s_fail) sh st w
              ++ [EvExpect (final_exit_code (self s_fail) w =? 0)]
              ++ map EvModelFinish (fpga_models (self s_fail))
              ++ map EvBridgeFinish (bridges (self s_fail))) /\
    model_finishes pre = [] /\ bridge_finishes pre = [] /\
    pass (self s') = pass (self s_fail) && (final_exit_code (self s_fail) w =? 0) /\
    (final_exit_code (self s_fail) w <> 0 -> pass (self s') = false).
Proof.
  assert (H : loop_stops 20 s_fail).
  { unfold loop_stops. eexists. vm_compute. reflexivity. }
  split; [exact H|exact (finish_runs_after_report 20 s_fail H)].
Defined.

(** The claim that [init()] follows the reset fails on the run of
    [s_timeout]: both bridge [init()] calls come before
    [target_reset(50)], and no [init()] of driver 0 comes after it. *)
Lemma bridge_init_precedes_reset :
  exists s' rest,
    run 20 s_timeout =
    Some (tt, s',
          [EvModelInit 7%nat; EvBridgeInit 0%nat; EvBridgeInit 1%nat;
           EvPrint MsgCommencing; EvTargetReset 50] ++ rest) /\
    In 0%nat (bridges (self s_timeout)) /\
    bridge_inits rest = [] /\
    ~ init_after_reset
        ([EvModelInit 7%nat; EvBridgeInit 0%nat; EvBridgeInit 1%nat;
          EvPrint MsgCommencing; EvTargetReset 50] ++ rest) 0%nat.
Proof.
  eexists _, _. split; [vm_compute; reflexivity|].
  split; [left; reflexivity|]. split; [reflexivity|].
  assert (E : exists s', run 20 s_timeout = Some (tt, s', _))
    by (eexists; vm_compute; reflexivity).
  destruct E as (s' & E).
  destruct (run_reset_then_no_init _ _ _ _ E) as (_ & _ & _ & _ & _ & R).
  apply R.
Qed.

Lemma bridge_init_once_before_reset_witness :
  exists s' tr,
    run 20 s_timeout = Some (tt, s', tr) /\
    bridge_inits tr = [0%nat; 1%nat] /\
    exists pre loop_tr rest,
      tr = pre ++ EvTargetReset 50 :: loop_tr ++ rest /\
      bridge_inits pre = [0%nat; 1%nat] /\
      loop_trace [0%nat; 1%nat] loop_tr /\
      bridge_inits (loop_tr ++ rest) = [] /\
      forall b, ~ init_after_reset tr b.
Proof.
  assert (E : exists s' tr, run 20 s_timeout = Some (tt, s', tr))
    by (eexists _, _; vm_compute; reflexivity).
  destruct E as (s' & tr & E). exists s', tr.
  split; [exact E|exact (bridge_init_once_before_reset 20 s_timeout s' tr E)].
Defined.

Lemma exit_code_first_nonzero_witness :
  map (fun b => bd_exit_code b (world s_codes)) (bridges (self s_codes))
  = [0; 0; 3; 5] /\
  exit_code s_codes = Some (3, s_codes, []).
Proof.
  assert (H : map (fun b => bd_exit_code b (world s_codes)) (bridges (self s_codes))
              = [0; 0; 3; 5]) by reflexivity.
  split; [exact H|].
  destruct (exit_code_first_nonzero s_codes) as (c & E & _ & _ & _ & H5).
  destruct (H5 H) as (Hc & _). rewrite Hc in E. exact E.
Defined.

Lemma termination_is_a_disjunction_witness :
  (exists e, In e (bridges (self s_stopped))
             /\ bd_terminate e (world s_stopped) = true) /\
  bd_terminate 1%nat (world s_stopped) = false /\
  main_loop 1 s_stopped = Some (tt, s_stopped, []).
Proof.
  assert (H : exists e, In e (bridges (self s_stopped))
                        /\ bd_terminate e (world s_stopped) = true).
  { exists 0%nat. split; [left; reflexivity|reflexivity]. }
  split; [exact H|]. split; [reflexivity|].
  destruct (termination_is_a_disjunction s_stopped) as (_ & Hloop & _).
  exact (Hloop 0%nat (or_introl H)).
Defined.

Lemma verdict_precedence_witness :
  exists s' tr,
    run 20 s_timeout = Some (tt, s', tr) /\
    exists pre sh st w,
      tr = pre ++ report_trace (self s_timeout) sh st w
               ++ [EvExpect (final_exit_code (self s_timeout) w =? 0)]
               ++ finish_trace (self s_timeout) /\
      nth_error (report_trace (self s_timeout) sh st w) 1
      = Some (EvPrint (final_verdict (self s_timeout) w)).
Proof.
  assert (E : exists s' tr, run 20 s_timeout = Some (tt, s', tr))
    by (eexists _, _; vm_compute; reflexivity).
  destruct E as (s' & tr & E). exists s', tr. split; [exact E|].
  destruct (verdict_precedence 20 s_timeout s' tr E)
    as (pre & sh & st & w & Htr & Hnth & _).
  exists pre, sh, st, w. split; [exact Htr|exact Hnth].
Defined.

(** The run of [s_pass]: two rounds of ticks, each over driver 0 and
    then driver 1. *)
Example run_pass_ticks :
  exists s' tr,
    run 20 s_pass = Some (tt, s', tr) /\
    bridge_ticks tr = [0; 1; 0; 1]%nat.
Proof. eexists _, _. split; vm_compute; reflexivity. Qed.

Lemma calls_follow_registration_order_witness :
  firesim_top_ctor ["firesim"%string] two_bridges_one_model = Some (self s_pass) /\
  loop_stops 20 s_pass /\
  exists s' tr sh st sl loop_tr rounds,
    run 20 s_pass = Some (tt, s', tr) /\
    tr = ([EvModelInit 7%nat] ++ [EvBridgeInit 0%nat; EvBridgeInit 1%nat])
         ++ commence_trace (self s_pass) ++ loop_tr
         ++ report_trace (self s_pass) sh st (world sl)
         ++ [EvExpect (final_exit_code (self s_pass) (world sl) =? 0)]
         ++ ([EvModelFinish 7%nat] ++ [EvBridgeFinish 0%nat; EvBridgeFinish 1%nat]) /\
    loop_trace [0%nat; 1%nat] loop_tr /\
    bridge_ticks tr = List.concat (repeat [0%nat; 1%nat] rounds) /\
    bridge_ticks tr = [0; 1; 0; 1]%nat /\
    model_inits tr = [7%nat] /\ bridge_inits tr = [0%nat; 1%nat] /\
    model_finishes tr = [7%nat] /\ bridge_finishes tr = [0%nat; 1%nat].
Proof.
  assert (Hc : firesim_top_ctor ["firesim"%string] two_bridges_one_model
               = Some (self s_pass)) by reflexivity.
  assert (Hs : loop_stops 20 s_pass).
  { unfold loop_stops. eexists. vm_compute. reflexivity. }
  split; [exact Hc|]. split; [exact Hs|].
  destruct (calls_follow_registration_order (World := world_t) _ _ _ Hc)
    as (_ & _ & _ & _ & R).
  destruct (R 20%nat (mk_world 0 15 [0; 0] 0) Hs)
    as (s' & tr & sh & st & sl & loop_tr & rounds & E & Htr & L & T & C).
  exists s', tr, sh, st, sl, loop_tr, rounds.
  split; [exact E|]. split; [exact Htr|]. split; [exact L|]. split; [exact T|].
  split; [|exact C].
  destruct run_pass_ticks as (s0 & tr0 & E0 & T0).
  change (run 20 s_pass = Some (tt, s', tr)) in E.
  rewrite E in E0. inversion E0; subst tr0. exact T0.
Defined.

(** What [atoi] returns for numbers that do not fit in [int]. *)
Example atoi_out_of_range :
  CStr.atoi "4294967295" = -1 /\
  CStr.atoi "2147483648" = -2147483648 /\
  CStr.atoi "-2147483649" = 2147483647 /\
  CStr.atoi "99999999999999999999" = -1.
Proof. repeat split; vm_compute; reflexivity. Qed.

Lemma startup_arguments_witness :
  firesim_top_ctor
    ["firesim"; "+max-cycles=2147483648"; "+zero-out-dram"]%string
    two_bridges_one_model
  = Some (firesim_top_body ["+max-cycles=2147483648"; "+zero-out-dram"]%string
                           two_bridges_one_model) /\
  let t := firesim_top_body ["+max-cycles=2147483648"; "+zero-out-dram"]%string
                            two_bridges_one_model in
  max_cycles t = -2147483648 /\
  profile_interval t = -1 /\
  do_zero_out_dram t = true /\
  exists s' tr,
    run 20 (mk_state t (mk_world 0 15 [0; 0] 0)) = Some (tt, s', tr) /\
    same_config (self s') t.
Proof.
  assert (Hc : firesim_top_ctor
                 ["firesim"; "+max-cycles=2147483648"; "+zero-out-dram"]%string
                 two_bridges_one_model
               = Some (firesim_top_body
                         ["+max-cycles=2147483648"; "+zero-out-dram"]%string
                         two_bridges_one_model)) by reflexivity.
  split; [exact Hc|]. cbv zeta.
  destruct (startup_arguments (World := world_t) _ _ _ Hc)
    as (_ & M2 & P1 & _ & Z & _ & _ & R).
  split; [|split; [|split]].
  - rewrite (M2 [] "+max-cycles=2147483648"%string ["+zero-out-dram"%string]);
      [vm_compute; reflexivity|reflexivity|reflexivity|].
    intros x [<-|[]]. reflexivity.
  - apply P1. intros a [<-|[<-|[]]]; reflexivity.
  - exact Z.
  - apply R. unfold loop_stops. eexists. vm_compute. reflexivity.
Defined.

Lemma builtin_profile_task_and_zeroing_witness :
  firesim_top_ctor ["firesim"; "+profile-interval=20"; "+zero-out-dram"]%string
                   two_bridges_one_model = Some (self s_fail) /\
  loop_stops 20 s_fail /\
  profile_interval (self s_fail) <> -1 /\
  tasks (self s_fail) = [mk_task ProfileModelsTask 0 true] /\
  exists s' rest,
    run 20 s_fail =
    Some (tt, s',
          [EvModelInit 7%nat; EvBridgeInit 0%nat; EvBridgeInit 1%nat]
          ++ [EvPrint MsgZeroing; EvZeroOutDram]
          ++ [EvPrint MsgCommencing] ++ rest) /\
    ~ In EvZeroOutDram [EvModelInit 7%nat; EvBridgeInit 0%nat; EvBridgeInit 1%nat] /\
    ~ In EvZeroOutDram rest.
Proof.
  assert (Hc : firesim_top_ctor
                 ["firesim"; "+profile-interval=20"; "+zero-out-dram"]%string
                 two_bridges_one_model = Some (self s_fail)) by reflexivity.
  assert (Hs : loop_stops 20 s_fail).
  { unfold loop_stops. eexists. vm_compute. reflexivity. }
  assert (H : profile_interval (self s_fail) <> -1) by discriminate.
  split; [exact Hc|]. split; [exact Hs|]. split; [exact H|].
  destruct (builtin_profile_task_and_zeroing (World := world_t) _ _ _ Hc)
    as (T1 & _ & _ & _ & R).
  split; [exact (proj1 T1 H)|].
  exact (R 20%nat (mk_world 0 25 [0; 3] 0) Hs).
Defined.

(** The unit on both sides of the threshold: a speed of exactly 1000 kHz
    is reported in KHz, the next speed above it in MHz. *)
Example speed_message_at_threshold :
  SFcompare (sim_speed_of 1000000 (double_of_Z 1)) (double_of_Z 1000) = Some Eq /\
  speed_message (double_of_Z 1) (sim_speed_of 1000000 (double_of_Z 1))
  = MsgSpeedKHz (double_of_Z 1) (sim_speed_of 1000000 (double_of_Z 1)) /\
  SFcompare (sim_speed_of 1000001 (double_of_Z 1)) (double_of_Z 1000) = Some Gt /\
  speed_message (double_of_Z 1) (sim_speed_of 1000001 (double_of_Z 1))
  = MsgSpeedMHz (double_of_Z 1)
                (ddiv (sim_speed_of 1000001 (double_of_Z 1)) (double_of_Z 1000)).
Proof. repeat split; vm_compute; reflexivity. Qed.

(** The run of [s_fast]: 100000020 cycles on the counter after 20 seconds
    on the clock, 5000 kHz, reported in MHz.  The run of [s_pass]: 20
    cycles in 20 seconds, reported in KHz. *)
Lemma speed_unit_threshold_witness :
  (exists s' pre verdict time speed fmr post,
      run 20 s_fast =
      Some (tt, s',
            pre ++ [EvPrint MsgNewline; EvPrint verdict;
                    EvPrint (MsgSpeedMHz time speed); EvPrint (MsgFMR fmr)]
                ++ post)) /\
  (exists s' pre verdict time speed fmr post,
      run 20 s_pass =
      Some (tt, s',
            pre ++ [EvPrint MsgNewline; EvPrint verdict;
                    EvPrint (MsgSpeedKHz time speed); EvPrint (MsgFMR fmr)]
                ++ post)).
Proof.
  split.
  - destruct (speed_unit_threshold 0 0 s_fast) as (_ & R).
    edestruct (R 20%nat) as (s' & verdict & line & fmr & E & G & _).
    { vm_compute. reflexivity. }
    { vm_compute. reflexivity. }
    cbv zeta in G. rewrite G in E by (vm_compute; reflexivity).
    eexists s', (_ ++ _), verdict, _, _, fmr, _.
    rewrite <- app_assoc. exact E.
  - destruct (speed_unit_threshold 0 0 s_pass) as (_ & R).
    edestruct (R 20%nat) as (s' & verdict & line & fmr & E & _ & G & _).
    { vm_compute. reflexivity. }
    { vm_compute. reflexivity. }
    cbv zeta in G. rewrite G in E by (vm_compute; discriminate).
    eexists s', (_ ++ _), verdict, _, _, fmr, _.
    rewrite <- app_assoc. exact E.
Defined.


(** The run of [s_interval15]: the step is 10 at most, and the passes are
    at steps 0, 15 and 30. *)
Example run_interval15_passes :
  exists s' pre post,
    run 20 s_interval15 =
    Some (tt, s',
          pre ++ [EvTargetReset 50;
                  EvModelProfile 7%nat; EvStep 10;
                  EvBridgeTick 0%nat; EvBridgeTick 1%nat;
                  EvBridgeTick 0%nat; EvBridgeTick 1%nat;
                  EvStep 5;
                  EvModelProfile 7%nat; EvStep 10; EvStep 5;
                  EvModelProfile 7%nat; EvStep 10;
                  EvPrint MsgNewline] ++ post) /\
    tasks (self s') = [mk_task ProfileModelsTask 5 true].
Proof.
  eexists _, [_; _; _; _], _. split; vm_compute; reflexivity.
Qed.

(** A negative interval other than -1 comes back from the callback as a
    large unsigned number. *)
Example profile_models_negative_interval :
  exists s' tr,
    profile_models (start ["+profile-interval=-2"]%string [] (mk_world 0 0 [] 0))
    = Some (2 ^ 64 - 2, s', tr).
Proof. eexists _, _. vm_compute. reflexivity. Qed.


End DemoRuns.

(** ** The blocks of the constructor *)

Section BuildFacts.

Import Build.

Lemma exec_blocks_app cfg a b r :
  exec_blocks cfg (a ++ b) r =
  match exec_blocks cfg a r with
  | Some r' => exec_blocks cfg b r'
  | None => None
  end.
Proof.
  revert r. induction a as [|x a IH]; intros r; simpl; [reflexivity|].
  destruct (exec_block cfg x r); [apply IH|reflexivity].
Qed.

Lemma exec_simple cfg (B : nat -> block) (present : nat -> bool)
      (mk : nat -> component) ids : forall r,
  (forall i r0, exec_block cfg (B i) r0 =
                Some (if present i then registers (AddBridgeDriver (mk i)) r0 else r0)) ->
  exec_blocks cfg (map B ids) r =
  Some (mk_locals (calls r ++ simple_calls present mk ids)
                  (host_mem_offsets r) (host_mem_offset r)).
Proof.
  induction ids as [|i ids IH]; intros r H; simpl.
  - rewrite app_nil_r. now destruct r.
  - rewrite H. destruct (present i); rewrite IH by exact H; simpl.
    + now rewrite <- app_assoc.
    + reflexivity.
Qed.

Lemma exec_macro cfg (B : nat -> block) (present : nat -> bool) m ids : forall r,
  (forall i r0, exec_block cfg (B i) r0 =
                Some (if present i then expand cfg m i r0 else r0)) ->
  exec_blocks cfg (map B ids) r =
  Some (mk_locals (calls r ++ macro_calls cfg present m ids)
                  (host_mem_offsets r) (host_mem_offset r)).
Proof.
  induction ids as [|i ids IH]; intros r H; simpl.
  - rewrite app_nil_r. now destruct r.
  - rewrite H. destruct (present i); rewrite IH by exact H; simpl.
    + now rewrite <- app_assoc.
    + reflexivity.
Qed.

Lemma exec_fased cfg ids : forall r,
  exec_blocks cfg (map BFased ids) r =
  let slots := slots_in cfg ids in
  let spans := map (fun sm => span (snd sm)) slots in
  if forallb (fun sm => valid_shift (snd sm)) slots
  then Some (mk_locals (calls r ++ fased_calls (host_mem_offset r) slots)
                       (host_mem_offsets r ++ offsets_from (host_mem_offset r) spans)
                       (final_offset (host_mem_offset r) spans))
  else None.
Proof.
  cbv zeta. induction ids as [|i ids IH]; intros r; simpl.
  - rewrite !app_nil_r. now destruct r.
  - destruct (FASED cfg i) as [m|]; simpl; [|apply IH].
    unfold valid_shift at 1.
    destruct ((0 <=? target_addr_bits m) && (target_addr_bits m <? 64)); simpl;
      [|reflexivity].
    rewrite IH. simpl.
    destruct (forallb _ _); [|reflexivity].
    unfold fased_model, span. now rewrite <- !app_assoc.
Qed.

Lemma exec_serial cfg ids : forall r,
  exec_blocks cfg (map BSerial ids) r =
  if serial_in_range cfg (List.length (host_mem_offsets r)) ids
  then Some (mk_locals (calls r ++ serial_calls cfg (host_mem_offsets r) ids)
                       (host_mem_offsets r) (host_mem_offset r))
  else None.
Proof.
  induction ids as [|i ids IH]; intros r; simpl.
  - rewrite app_nil_r. now destruct r.
  - destruct (SERIAL_struct_guard cfg && SERIAL_PRESENT cfg i); simpl.
    + destruct (nth_error (host_mem_offsets r) i) as [h|] eqn:E.
      * assert (L : Nat.ltb i (List.length (host_mem_offsets r)) = true).
        { apply Nat.ltb_lt. apply nth_error_Some. congruence. }
        rewrite L, IH. simpl.
        destruct (serial_in_range _ _ _); [|reflexivity].
        now rewrite <- app_assoc.
      * assert (L : Nat.ltb i (List.length (host_mem_offsets r)) = false).
        { apply Nat.ltb_ge. now apply nth_error_None. }
        now rewrite L.
    + apply IH.
Qed.

Lemma offsets_from_length start spans :
  List.length (offsets_from start spans) = List.length spans.
Proof.
  revert start. induction spans as [|s r IH]; intros start; simpl;
    [reflexivity|now rewrite IH].
Qed.

(** The blocks as a whole: the constructor is defined when every FASED
    shift count is in 0..63 and no serial block reads past the end of
    [host_mem_offsets]; then its registrations and locals are these. *)
Lemma registrations_shape cfg :
  registrations cfg =
  let slots := fased_slots cfg in
  let spans := map (fun sm => span (snd sm)) slots in
  let start := uint64 (- 0x80000000) in
  if forallb (fun sm => valid_shift (snd sm)) slots
     && serial_in_range cfg (List.length slots) (seq 0 8)
  then Some (mk_locals (calls_of cfg) (offsets_from start spans)
                       (final_offset start spans))
  else None.
Proof.
  cbv zeta. unfold registrations, constructor_blocks, calls_of.
  rewrite exec_blocks_app.
  rewrite (exec_simple cfg BUart (UART_PRESENT cfg) uart_t)
    by (intros; reflexivity).
  rewrite exec_blocks_app, exec_fased. cbv zeta.
  change (slots_in cfg (seq 0 8)) with (fased_slots cfg).
  cbn [calls host_mem_offsets host_mem_offset initial_locals app].
  destruct (forallb _ (fased_slots cfg)); [|reflexivity].
  rewrite exec_blocks_app, exec_serial.
  cbn [calls host_mem_offsets host_mem_offset app andb].
  rewrite offsets_from_length, length_map.
  destruct (serial_in_range cfg _ _); [|reflexivity].
  rewrite exec_blocks_app.
  rewrite (exec_simple cfg BBlockdev
             (guarded (BLOCKDEV_struct_guard cfg) (BLOCKDEV_PRESENT cfg)) blockdev_t)
    by (intros; reflexivity).
  rewrite exec_blocks_app.
  rewrite (exec_simple cfg BSimplenic
             (guarded (SIMPLENIC_struct_guard cfg) (SIMPLENIC_PRESENT cfg)) simplenic_t)
    by (intros; reflexivity).
  rewrite exec_blocks_app.
  rewrite (exec_macro cfg BTracerv
             (guarded (TRACERV_struct_guard cfg) (TRACERV_PRESENT cfg))
             INSTANTIATE_TRACERV)
    by (intros; reflexivity).
  rewrite exec_blocks_app.
  rewrite (exec_simple cfg BGroundtest
             (guarded (GROUNDTEST_struct_guard cfg) (GROUNDTEST_PRESENT cfg)) groundtest_t)
    by (intros; reflexivity).
  rewrite exec_blocks_app.
  rewrite (exec_macro cfg BAutocounter (AUTOCOUNTER_PRESENT cfg) INSTANTIATE_AUTOCOUNTER)
    by (intros; reflexivity).
  rewrite exec_blocks_app.
  rewrite (exec_simple cfg BAssert (ASSERT_PRESENT cfg) synthesized_assertions_t)
    by (intros; reflexivity).
  rewrite (exec_macro cfg BPrint (PRINT_PRESENT cfg) INSTANTIATE_PRINTF)
    by (intros; reflexivity).
  cbn [calls host_mem_offsets host_mem_offset].
  rewrite <- !app_assoc. reflexivity.
Qed.

Lemma uint64_idem z : uint64 (uint64 z) = uint64 z.
Proof. unfold uint64. apply Z.mod_mod. discriminate. Qed.

Lemma uint64_add_l a b : uint64 (uint64 a + b) = uint64 (a + b).
Proof. unfold uint64. apply Zplus_mod_idemp_l. Qed.

Lemma offsets_from_nth spans : forall start k,
  (k < List.length spans)%nat ->
  nth_error (offsets_from (uint64 start) spans) k =
  Some (uint64 (start + total (firstn k spans))).
Proof.
  induction spans as [|s r IH]; intros start k Hk; simpl in Hk; [lia|].
  destruct k as [|k]; simpl.
  - now rewrite Z.add_0_r.
  - rewrite uint64_add_l, IH by lia. now rewrite Z.add_assoc.
Qed.

Lemma final_offset_total spans : forall start,
  final_offset (uint64 start) spans = uint64 (start + total spans).
Proof.
  unfold final_offset.
  induction spans as [|s r IH]; intros start; simpl.
  - now rewrite Z.add_0_r.
  - rewrite uint64_add_l, IH. now rewrite Z.add_assoc.
Qed.

(** Facts that hold of every call of a family. *)
Lemma simple_calls_Forall (Q : call -> Prop) present mk ids :
  (forall i, Q (AddBridgeDriver (mk i))) -> Forall Q (simple_calls present mk ids).
Proof.
  intros H. unfold simple_calls. induction ids as [|i ids IH]; simpl; [constructor|].
  destruct (present i); simpl; [constructor; [apply H|exact IH]|exact IH].
Qed.

Lemma macro_calls_Forall (Q : call -> Prop) cfg present m ids :
  (forall i k, Q (AddBridgeDriver (instantiated m i k))) ->
  Forall Q (macro_calls cfg present m ids).
Proof.
  intros H. unfold macro_calls. induction ids as [|i ids IH]; simpl; [constructor|].
  destruct (present i); [|exact IH].
  apply Forall_app. split; [|exact IH].
  apply Forall_forall. intros c Hc. apply in_map_iff in Hc.
  destruct Hc as (k & <- & _). apply H.
Qed.

Lemma serial_calls_Forall (Q : call -> Prop) cfg offsets ids :
  (forall i h, Q (AddBridgeDriver (serial_t i h))) ->
  Forall Q (serial_calls cfg offsets ids).
Proof.
  intros H. unfold serial_calls. induction ids as [|i ids IH]; simpl; [constructor|].
  destruct (SERIAL_struct_guard cfg && SERIAL_PRESENT cfg i); [|exact IH].
  destruct (nth_error offsets i); simpl; [constructor; [apply H|exact IH]|exact IH].
Qed.

Lemma fased_calls_Forall (Q : call -> Prop) slots : forall start,
  (forall i m h, Q (PushBackModel (fased_model i m h))) ->
  Forall Q (fased_calls start slots).
Proof.
  induction slots as [|[i m] r IH]; intros start H; simpl; constructor;
    [apply H|now apply IH].
Qed.

Lemma model_components_none cs :
  Forall (fun c => match c with AddBridgeDriver _ => True | PushBackModel _ => False end) cs ->
  model_components cs = [].
Proof.
  induction 1 as [|c r Hc _ IH]; simpl; [reflexivity|].
  destruct c; [exact IH|contradiction].
Qed.

Lemma bridge_components_none cs :
  Forall (fun c => match c with PushBackModel _ => True | AddBridgeDriver _ => False end) cs ->
  bridge_components cs = [].
Proof.
  induction 1 as [|c r Hc _ IH]; simpl; [reflexivity|].
  destruct c; [contradiction|exact IH].
Qed.

Lemma model_components_fased slots : forall start,
  model_components (fased_calls start slots) =
  map component_of_call (fased_calls start slots).
Proof.
  induction slots as [|[i m] r IH]; intros start; simpl; [reflexivity|].
  now rewrite IH.
Qed.

(** The models a defined build registers are the FASED models of its
    slots, and nothing else. *)
Lemma model_components_calls_of cfg :
  model_components (calls_of cfg) =
  map component_of_call (fased_calls (uint64 (- 0x80000000)) (fased_slots cfg)).
Proof.
  unfold calls_of, model_components. rewrite !flat_map_app.
  fold (model_components (fased_calls (uint64 (- 0x80000000)) (fased_slots cfg))).
  rewrite model_components_fased.
  repeat match goal with
         | |- context [flat_map ?f (simple_calls ?p ?mk ?ids)] =>
             change (flat_map f (simple_calls p mk ids))
               with (model_components (simple_calls p mk ids));
             rewrite (model_components_none (simple_calls p mk ids))
               by (apply simple_calls_Forall; intros; exact I)
         | |- context [flat_map ?f (macro_calls ?c ?p ?m ?ids)] =>
             change (flat_map f (macro_calls c p m ids))
               with (model_components (macro_calls c p m ids));
             rewrite (model_components_none (macro_calls c p m ids))
               by (apply macro_calls_Forall; intros; exact I)
         | |- context [flat_map ?f (serial_calls ?c ?o ?ids)] =>
             change (flat_map f (serial_calls c o ids))
               with (model_components (serial_calls c o ids));
             rewrite (model_components_none (serial_calls c o ids))
               by (apply serial_calls_Forall; intros; exact I)
         end.
  now rewrite app_nil_r.
Qed.

Lemma fased_calls_nth slots : forall start k i m,
  nth_error slots k = Some (i, m) ->
  nth_error (map component_of_call (fased_calls (uint64 start) slots)) k =
  Some (fased_model i m
          (uint64 (start + total (firstn k (map (fun sm => span (snd sm)) slots))))).
Proof.
  induction slots as [|[j n] r IH]; intros start k i m H.
  - destruct k; discriminate.
  - destruct k as [|k]; simpl in *.
    + inversion H; subst. now rewrite Z.add_0_r.
    + rewrite uint64_add_l, (IH _ _ _ _ H). now rewrite Z.add_assoc.
Qed.

Lemma registrations_Some cfg r :
  registrations cfg = Some r ->
  let spans := map (fun sm => span (snd sm)) (fased_slots cfg) in
  calls r = calls_of cfg /\
  host_mem_offsets r = offsets_from (uint64 (- 0x80000000)) spans /\
  host_mem_offset r = final_offset (uint64 (- 0x80000000)) spans /\
  forallb (fun sm => valid_shift (snd sm)) (fased_slots cfg) = true /\
  serial_in_range cfg (List.length (fased_slots cfg)) (seq 0 8) = true.
Proof.
  rewrite registrations_shape. cbv zeta.
  destruct (forallb _ (fased_slots cfg)); cbn [andb]; [|discriminate].
  destruct (serial_in_range cfg _ _); [|discriminate].
  intros H. inversion H; subst. cbn [calls host_mem_offsets host_mem_offset]. auto.
Qed.

Lemma fased_calls_length slots : forall start,
  List.length (fased_calls start slots) = List.length slots.
Proof.
  induction slots as [|[i m] l IH]; intros start; cbn [fased_calls List.length];
    [reflexivity|now rewrite IH].
Qed.

Lemma start_offset : uint64 (- 0x80000000) = uint64 0xFFFFFFFF80000000.
Proof. vm_compute. reflexivity. Qed.

(** X1. The host offsets of the memory models are running sums that
    start at 0xFFFFFFFF80000000 (the [uint64_t] value of -0x80000000) and
    wrap modulo 2^64: the [k]-th FASED slot the build defines, in slot
    order, is created with the start value plus the spans
    [lastChannel << target_addr_bits] of the slots before it; the same
    value is the [k]-th entry of [host_mem_offsets]; there is one entry and
    one model per defined slot, and [host_mem_offset] ends at the start
    value plus all the spans. *)
Theorem host_mem_offsets_are_running_sums cfg r :
  registrations cfg = Some r ->
  let slots := fased_slots cfg in
  let spans := map (fun sm => span (snd sm)) slots in
  let start := 0xFFFFFFFF80000000 in
  List.length (host_mem_offsets r) = List.length slots /\
  List.length (model_components (calls r)) = List.length slots /\
  (forall k i m,
      nth_error slots k = Some (i, m) ->
      let offset := uint64 (start + total (firstn k spans)) in
      nth_error (host_mem_offsets r) k = Some offset /\
      nth_error (model_components (calls r)) k = Some (fased_model i m offset)) /\
  host_mem_offset r = uint64 (start + total spans).
Proof.
  intros H. apply registrations_Some in H. cbv zeta in H.
  destruct H as (Hc & Ho & Hf & _ & _). cbv zeta.
  rewrite Hc, Ho, Hf, model_components_calls_of, start_offset.
  split; [now rewrite offsets_from_length, length_map|].
  split.
  { rewrite length_map. apply fased_calls_length. }
  split; [|apply final_offset_total].
  intros k i m Hk. split.
  - apply offsets_from_nth. rewrite length_map.
    apply nth_error_Some. congruence.
  - now apply fased_calls_nth.
Qed.

Lemma forallb_false_exists {A} (f : A -> bool) l :
  forallb f l = false <-> exists x, In x l /\ f x = false.
Proof.
  induction l as [|a r IH]; simpl.
  - split; [discriminate|intros (x & [] & _)].
  - destruct (f a) eqn:E; simpl.
    + rewrite IH. split.
      * intros (x & Hx & Fx). exists x. auto.
      * intros (x & [<-|Hx] & Fx); [congruence|exists x; auto].
    + split; [|reflexivity]. intros _. exists a. auto.
Qed.

(** The [k]-th defined slot of a run of consecutive slots is not before
    the [k]-th slot. *)
Lemma slots_in_nth cfg n : forall a k j m,
  nth_error (slots_in cfg (seq a n)) k = Some (j, m) -> (a + k <= j)%nat.
Proof.
  induction n as [|n IH]; intros a k j m H; simpl in H.
  - destruct k; discriminate.
  - destruct (FASED cfg a) as [x|]; simpl in H.
    + destruct k as [|k]; simpl in H.
      * inversion H; subst. lia.
      * apply IH in H. lia.
    + apply IH in H. lia.
Qed.

(** X2. A serial bridge takes its host offset by position:
    [host_mem_offsets[i]] is the offset of the [i]-th memory model that
    was registered, whose FASED slot number is [i] or more.  When FASED
    shift counts are valid, the constructor is undefined exactly when some
    serial slot [i] is present while fewer than [i + 1] FASED slots are
    defined (the vector is read past its end). *)
Theorem serial_offset_is_by_position cfg :
  (forallb (fun sm => valid_shift (snd sm)) (fased_slots cfg) = true ->
   (registrations cfg = None <->
    exists i, (i < 8)%nat /\
              SERIAL_struct_guard cfg && SERIAL_PRESENT cfg i = true /\
              (List.length (fased_slots cfg) <= i)%nat)) /\
  (forall r i,
      registrations cfg = Some r ->
      (i < 8)%nat ->
      SERIAL_struct_guard cfg && SERIAL_PRESENT cfg i = true ->
      exists h j m,
        nth_error (fased_slots cfg) i = Some (j, m) /\ (i <= j)%nat /\
        nth_error (host_mem_offsets r) i = Some h /\
        In (AddBridgeDriver (serial_t i h)) (calls r) /\
        nth_error (model_components (calls r)) i = Some (fased_model j m h)).
Proof.
  split.
  - intros Hv. rewrite registrations_shape. cbv zeta. rewrite Hv. cbn [andb].
    destruct (serial_in_range cfg (List.length (fased_slots cfg)) (seq 0 8)) eqn:E.
    + split; [discriminate|]. intros (i & Hi & Hp & Hl). exfalso.
      unfold serial_in_range in E. rewrite forallb_forall in E.
      specialize (E i). rewrite Hp in E. simpl in E.
      assert (In i (seq 0 8)) as Hin by (apply in_seq; lia).
      apply E in Hin. apply Nat.ltb_lt in Hin. lia.
    + split; [|reflexivity]. intros _.
      unfold serial_in_range in E. apply forallb_false_exists in E.
      destruct E as (i & Hin & Hf). apply in_seq in Hin.
      apply orb_false_iff in Hf. destruct Hf as [Hp Hl].
      apply negb_false_iff in Hp. apply Nat.ltb_ge in Hl.
      exists i. repeat split; [lia|exact Hp|exact Hl].
  - intros r i H Hi Hp. apply registrations_Some in H. cbv zeta in H.
    destruct H as (Hc & Ho & _ & _ & Hr).
    unfold serial_in_range in Hr. rewrite forallb_forall in Hr.
    assert (Hin : In i (seq 0 8)) by (apply in_seq; lia).
    specialize (Hr i Hin). rewrite Hp in Hr. simpl in Hr. apply Nat.ltb_lt in Hr.
    destruct (nth_error (fased_slots cfg) i) as [[j m]|] eqn:Es;
      [|apply nth_error_None in Es; lia].
    assert (Hh : nth_error (host_mem_offsets r) i =
                 Some (uint64 (- 0x80000000
                               + total (firstn i (map (fun sm => span (snd sm))
                                                      (fased_slots cfg)))))).
    { rewrite Ho. apply offsets_from_nth. now rewrite length_map. }
    eexists _, j, m. split; [reflexivity|]. split.
    { apply (slots_in_nth cfg 8 0 i j m) in Es. lia. }
    split; [exact Hh|]. split.
    + rewrite Hc. unfold calls_of. rewrite !in_app_iff. right. right. left.
      unfold serial_calls. apply in_flat_map. exists i. split; [exact Hin|].
      rewrite Hp, <- Ho, Hh. now left.
    + rewrite Hc, model_components_calls_of. now apply fased_calls_nth.
Qed.

Lemma slots_in_incl cfg ids : incl (map fst (slots_in cfg ids)) ids.
Proof.
  induction ids as [|a ids IH]; simpl; [easy|].
  destruct (FASED cfg a); simpl.
  - intros x [<-|Hx]; [now left|right; now apply IH].
  - intros x Hx. right. now apply IH.
Qed.

Lemma slots_in_NoDup {B} (f : nat -> B) cfg ids :
  NoDup (map f ids) -> NoDup (map f (map fst (slots_in cfg ids))).
Proof.
  induction ids as [|a ids IH]; simpl; intros H; [constructor|].
  inversion H as [|x l Hn Hd]; subst.
  destruct (FASED cfg a); simpl; [|now apply IH].
  constructor; [|now apply IH].
  intros Hin. apply Hn. apply in_map_iff in Hin.
  destruct Hin as (y & Hy & Hin). apply in_map_iff. exists y.
  split; [exact Hy|]. now apply (slots_in_incl cfg ids).
Qed.

Lemma stats_files_of_fased slots : forall start,
  flat_map stats_file_of (map component_of_call (fased_calls start slots)) =
  map stats_file_name (map fst slots).
Proof.
  induction slots as [|[i m] r IH]; intros start; simpl; [reflexivity|].
  now rewrite IH.
Qed.

(** X5. No two memory models of a build are given the same statistics
    file: the file names of the registered FASED models are pairwise
    distinct. *)
Theorem stats_files_are_distinct cfg r :
  registrations cfg = Some r ->
  NoDup (flat_map stats_file_of (model_components (calls r))).
Proof.
  intros H. apply registrations_Some in H. destruct H as (-> & _).
  rewrite model_components_calls_of, stats_files_of_fased.
  apply slots_in_NoDup.
  assert (E : map stats_file_name (seq 0 8) =
              nodup string_dec (map stats_file_name (seq 0 8)))
    by (vm_compute; reflexivity).
  rewrite E. apply NoDup_nodup.
Qed.

(** Each block only adds objects of its own place in the source. *)
Lemma exec_block_adds cfg b r r' :
  exec_block cfg b r = Some r' ->
  exists added,
    calls r' = calls r ++ added /\
    Forall (fun c => call_rank c = block_rank b) added.
Proof.
  assert (Hmacro : forall m i n,
             (forall k, source_rank (instantiated m i k) = n) ->
             Forall (fun c => call_rank c = n)
                    (map (fun k => AddBridgeDriver (instantiated m i k))
                         (seq 0 (expansion cfg m i)))).
  { intros m i n Hn. apply Forall_forall. intros c Hc.
    apply in_map_iff in Hc. destruct Hc as (k & <- & _). apply Hn. }
  destruct b as [i|i|i|i|i|i|i|i|i|i]; simpl; intros H.
  - inversion H; subst. destruct (UART_PRESENT cfg i); simpl.
    + eexists. split; [reflexivity|]. now constructor.
    + exists []. now rewrite app_nil_r.
  - destruct (FASED cfg i) as [m|].
    + destruct ((0 <=? target_addr_bits m) && (target_addr_bits m <? 64));
        [|discriminate].
      inversion H; subst. simpl. eexists. split; [reflexivity|]. now constructor.
    + inversion H; subst. exists []. now rewrite app_nil_r.
  - destruct (SERIAL_struct_guard cfg && SERIAL_PRESENT cfg i).
    + destruct (nth_error (host_mem_offsets r) i); [|discriminate].
      inversion H; subst. simpl. eexists. split; [reflexivity|]. now constructor.
    + inversion H; subst. exists []. now rewrite app_nil_r.
  - inversion H; subst.
    destruct (BLOCKDEV_struct_guard cfg && BLOCKDEV_PRESENT cfg i); simpl.
    + eexists. split; [reflexivity|]. now constructor.
    + exists []. now rewrite app_nil_r.
  - inversion H; subst.
    destruct (SIMPLENIC_struct_guard cfg && SIMPLENIC_PRESENT cfg i); simpl.
    + eexists. split; [reflexivity|]. now constructor.
    + exists []. now rewrite app_nil_r.
  - inversion H; subst.
    destruct (TRACERV_struct_guard cfg && TRACERV_PRESENT cfg i); simpl.
    + eexists. split; [reflexivity|]. now apply Hmacro.
    + exists []. now rewrite app_nil_r.
  - inversion H; subst.
    destruct (GROUNDTEST_struct_guard cfg && GROUNDTEST_PRESENT cfg i); simpl.
    + eexists. split; [reflexivity|]. now constructor.
    + exists []. now rewrite app_nil_r.
  - inversion H; subst. destruct (AUTOCOUNTER_PRESENT cfg i); simpl.
    + eexists. split; [reflexivity|]. now apply Hmacro.
    + exists []. now rewrite app_nil_r.
  - inversion H; subst. destruct (ASSERT_PRESENT cfg i); simpl.
    + eexists. split; [reflexivity|]. now constructor.
    + exists []. now rewrite app_nil_r.
  - inversion H; subst. destruct (PRINT_PRESENT cfg i); simpl.
    + eexists. split; [reflexivity|]. now apply Hmacro.
    + exists []. now rewrite app_nil_r.
Qed.

Lemma nondecreasing_sorted l : nondecreasing l = true -> StronglySorted le l.
Proof.
  induction l as [|x r IH]; simpl; intros H; [constructor|].
  apply andb_true_iff in H. destruct H as [H1 H2].
  constructor; [now apply IH|].
  apply Forall_forall. intros y Hy. rewrite forallb_forall in H1.
  apply Nat.leb_le. now apply H1.
Qed.

Lemma sorted_constant (added : list nat) n :
  Forall (fun x => x = n) added -> StronglySorted le added.
Proof.
  induction 1 as [|y a Hy Ha IH]; constructor; [exact IH|].
  eapply Forall_impl; [|exact Ha]. intros z Hz. cbv beta in Hz. subst. apply le_n.
Qed.

Lemma sorted_app_constant (l added : list nat) n :
  StronglySorted le l -> Forall (fun x => x <= n)%nat l ->
  Forall (fun x => x = n) added ->
  StronglySorted le (l ++ added).
Proof.
  intros Hs Hl Ha. induction Hs as [|x r Hr IH Hx]; simpl.
  - exact (sorted_constant _ _ Ha).
  - inversion Hl as [|x1 l1 Hxn Hln]; subst.
    constructor; [now apply IH|].
    apply Forall_app. split; [exact Hx|].
    eapply Forall_impl; [|exact Ha]. intros y Hy. cbv beta in Hy. subst. exact Hxn.
Qed.

Lemma exec_blocks_sorted cfg bs : forall r r',
  StronglySorted le (map block_rank bs) ->
  StronglySorted le (map call_rank (calls r)) ->
  (forall c b, In c (calls r) -> In b bs -> (call_rank c <= block_rank b)%nat) ->
  exec_blocks cfg bs r = Some r' ->
  StronglySorted le (map call_rank (calls r')).
Proof.
  induction bs as [|b bs IH]; intros r r' Hb Hs Hle H; simpl in H.
  - now inversion H; subst.
  - destruct (exec_block cfg b r) as [r1|] eqn:E; [|discriminate].
    destruct (exec_block_adds _ _ _ _ E) as (added & Hc & Ha).
    simpl in Hb. inversion Hb as [|x l Hbs Hbx]; subst.
    apply (IH r1 r'); [exact Hbs| | |exact H].
    + rewrite Hc, map_app.
      apply (sorted_app_constant _ _ (block_rank b)); [exact Hs| |].
      * apply Forall_forall. intros x Hx. apply in_map_iff in Hx.
        destruct Hx as (c & <- & Hin). apply Hle; [exact Hin|now left].
      * apply Forall_forall. intros x Hx. apply in_map_iff in Hx.
        destruct Hx as (c & <- & Hin). rewrite Forall_forall in Ha. now apply Ha.
    + intros c b' Hin Hb'. rewrite Hc in Hin. apply in_app_iff in Hin.
      destruct Hin as [Hin|Hin].
      * apply Hle; [exact Hin|now right].
      * rewrite Forall_forall in Ha. rewrite (Ha c Hin).
        rewrite Forall_forall in Hbx. apply Hbx. now apply in_map.
Qed.

Lemma registrations_sorted cfg r :
  registrations cfg = Some r -> StronglySorted le (map call_rank (calls r)).
Proof.
  intros H. unfold registrations in H.
  apply (exec_blocks_sorted cfg constructor_blocks initial_locals r);
    [|constructor|intros c b []|exact H].
  apply nondecreasing_sorted. vm_compute. reflexivity.
Qed.

Lemma components_sorted (f : call -> list component) cs :
  (forall c x, In x (f c) -> x = component_of_call c) ->
  StronglySorted le (map call_rank cs) ->
  StronglySorted le (map source_rank (flat_map f cs)).
Proof.
  intros Hf Hs. induction cs as [|c cs IH]; simpl; [constructor|].
  simpl in Hs. inversion Hs as [|x l Hl Hx]; subst.
  rewrite map_app.
  assert (Hall : Forall (le (call_rank c)) (map source_rank (flat_map f cs))).
  { apply Forall_forall. intros y Hy. apply in_map_iff in Hy.
    destruct Hy as (z & <- & Hz). apply in_flat_map in Hz.
    destruct Hz as (c' & Hc' & Hz). rewrite (Hf _ _ Hz).
    rewrite Forall_forall in Hx. apply Hx.
    change (source_rank (component_of_call c')) with (call_rank c').
    now apply in_map. }
  assert (Hhead : Forall (fun x => x = call_rank c) (map source_rank (f c))).
  { apply Forall_forall. intros y Hy. apply in_map_iff in Hy.
    destruct Hy as (z & <- & Hz). now rewrite (Hf _ _ Hz). }
  specialize (IH Hl). clear Hs Hl Hx.
  induction Hhead as [|y a Hy Hrest IHa]; simpl; [exact IH|].
  constructor; [exact IHa|]. subst y.
  apply Forall_app. split; [|exact Hall].
  eapply Forall_impl; [|exact Hrest]. intros z Hz. cbv beta in Hz. subst.
  apply le_n.
Qed.

Lemma handles_from_cons n c cs :
  handles_from n (c :: cs) =
  match c with
  | AddBridgeDriver _ => RegBridge n
  | PushBackModel _ => RegModel n
  end :: handles_from (S n) cs.
Proof. reflexivity. Qed.

Lemma component_at_middle pre c cs :
  component_at (pre ++ c :: cs) (List.length pre) = Some (component_of_call c).
Proof.
  unfold component_at. rewrite nth_error_app2 by apply le_n.
  now rewrite Nat.sub_diag.
Qed.

(** The pointers in the two vectors stand for the registered objects,
    in the order of registration. *)
Lemma handles_components cs : forall pre,
  map (component_at (pre ++ cs))
      (registered_bridges (handles_from (List.length pre) cs))
  = map Some (bridge_components cs) /\
  map (component_at (pre ++ cs))
      (registered_models (handles_from (List.length pre) cs))
  = map Some (model_components cs).
Proof.
  induction cs as [|c cs IH]; intros pre; [split; reflexivity|].
  rewrite handles_from_cons.
  destruct (IH (pre ++ [c])) as [IHb IHm].
  rewrite <- app_assoc, length_app, Nat.add_1_r in IHb, IHm.
  cbn [app] in IHb, IHm.
  destruct c as [x|x]; cbn [registered_bridges registered_models flat_map app
                             bridge_components model_components map];
    fold (registered_bridges (handles_from (S (List.length pre)) cs));
    fold (registered_models (handles_from (S (List.length pre)) cs));
    fold (bridge_components cs); fold (model_components cs);
    rewrite ?component_at_middle, IHb, IHm; split; reflexivity.
Qed.

End BuildFacts.

(** ** A run of the object a build constructs *)

Section BuildRuns.

Context {World : Type} {P : Simif World}.

Import Build.

(** X4. In a run of the object constructed for a build, [init()] and
    [finish()] are called on the registered objects in the order of the
    constructor text: the memory models by FASED slot, and the bridge
    drivers by kind (UART, serial, block device, NIC, TracerV, ground test,
    AutoCounter, assertions, printf) and by slot within a kind. *)
Theorem init_and_finish_follow_source_order argv cfg t fuel (w : World) s' tr :
  firesim_top_of_config argv cfg = Some t ->
  run fuel (mk_state t w) = Some (tt, s', tr) ->
  exists r,
    registrations cfg = Some r /\
    map (component_at (calls r)) (model_inits tr)
    = map Some (model_components (calls r)) /\
    map (component_at (calls r)) (bridge_inits tr)
    = map Some (bridge_components (calls r)) /\
    map (component_at (calls r)) (model_finishes tr)
    = map Some (model_components (calls r)) /\
    map (component_at (calls r)) (bridge_finishes tr)
    = map Some (bridge_components (calls r)) /\
    StronglySorted le (map source_rank (model_components (calls r))) /\
    StronglySorted le (map source_rank (bridge_components (calls r))).
Proof.
  unfold firesim_top_of_config. intros Ht Hrun.
  destruct (registrations cfg) as [r|] eqn:Er; [|discriminate].
  destruct (ctor_defined _ _ _ Ht) as (_ & ->). clear Ht.
  exists r. split; [reflexivity|].
  destruct (run_calls _ _ _ _ Hrun) as (C1 & C2 & C3 & C4).
  simpl in C1, C2, C3, C4.
  destruct (ctor_shape (tl argv) (handles (calls r))) as (_ & Hb & Hm & _).
  cbv zeta in Hb, Hm.
  destruct (handles_components (calls r) []) as [Gb Gm]. simpl in Gb, Gm.
  fold (handles (calls r)) in Gb, Gm.
  rewrite C1, C2, C3, C4, Hb, Hm, Gb, Gm.
  pose proof (registrations_sorted cfg r Er) as Hs.
  repeat split.
  - apply components_sorted; [|exact Hs].
    intros [x|x] y Hy; simpl in Hy; [contradiction|].
    destruct Hy as [<-|[]]. reflexivity.
  - apply components_sorted; [|exact Hs].
    intros [x|x] y Hy; simpl in Hy; [|contradiction].
    destruct Hy as [<-|[]]. reflexivity.
Qed.

End BuildRuns.

(** ** More properties of the run *)

Section MoreRunProperties.

Context {World : Type} {P : Simif World}.

Implicit Types (s : @state World) (w : World).

Lemma filter_none {A} (f : A -> bool) l :
  Forall (fun x => f x = false) l -> filter f l = [].
Proof.
  induction 1 as [|x r Hx _ IH]; simpl; [reflexivity|]. now rewrite Hx.
Qed.

Lemma filter_map_bridge (C : bridge_ptr -> event) b bs :
  (forall x, bridge_call_of b (C x) = Nat.eqb x b) ->
  filter (bridge_call_of b) (map C bs) = repeat (C b) (count_occ Nat.eq_dec bs b).
Proof.
  intros H. induction bs as [|a r IH]; simpl; [reflexivity|].
  rewrite H. destruct (Nat.eq_dec a b) as [->|Hn].
  - rewrite Nat.eqb_refl. simpl. now rewrite IH.
  - apply Nat.eqb_neq in Hn. now rewrite Hn.
Qed.

Lemma filter_concat_repeat {A} (f : A -> bool) l k :
  filter f (List.concat (repeat l k)) = List.concat (repeat (filter f l) k).
Proof.
  induction k as [|k IH]; simpl; [reflexivity|]. now rewrite filter_app, IH.
Qed.

Lemma concat_repeat_repeat {A} (x : A) c k :
  List.concat (repeat (repeat x c) k) = repeat x (k * c).
Proof.
  induction k as [|k IH]; simpl; [reflexivity|]. now rewrite IH, repeat_app.
Qed.

(** The calls of the loop on one driver: whole rounds of ticks. *)
Lemma loop_trace_bridge_calls bs tr :
  loop_trace bs tr ->
  exists rounds, forall b,
      filter (bridge_call_of b) tr =
      repeat (EvBridgeTick b) (rounds * count_occ Nat.eq_dec bs b).
Proof.
  intros (its & F & ->). induction F as [|it r Hit _ IH].
  - exists 0%nat. reflexivity.
  - destruct IH as (K & IH). destruct Hit as (prof & n & k & Fp & ->).
    exists (k + K)%nat. intros b. simpl.
    rewrite !filter_app, IH. simpl.
    rewrite (filter_none _ prof)
      by (eapply Forall_impl; [|exact Fp]; now intros []).
    rewrite filter_concat_repeat.
    rewrite (filter_map_bridge EvBridgeTick) by reflexivity.
    rewrite concat_repeat_repeat. simpl.
    now rewrite Nat.mul_add_distr_r, repeat_app.
Qed.

Lemma run_bridge_calls fuel s s' tr :
  run fuel s = Some (tt, s', tr) ->
  exists rounds, forall b,
      let c := count_occ Nat.eq_dec (bridges (self s)) b in
      bridge_calls b tr =
      repeat (EvBridgeInit b) c ++ repeat (EvBridgeTick b) (rounds * c)
      ++ repeat (EvBridgeFinish b) c.
Proof.
  intros H. apply run_inv in H.
  destruct H as (sh & st & loop_tr & sl & L & _ & _ & -> & _).
  destruct (loop_trace_bridge_calls _ _ L) as (K & HK).
  exists K. intros b. cbv zeta. unfold bridge_calls, init_trace, finish_trace.
  rewrite !filter_app, HK.
  rewrite (filter_map_bridge EvBridgeInit) by reflexivity.
  rewrite (filter_map_bridge EvBridgeFinish) by reflexivity.
  rewrite (filter_none _ (map EvModelInit _))
    by (apply Forall_forall; intros e He; apply in_map_iff in He;
        destruct He as (x & <- & _); reflexivity).
  rewrite (filter_none _ (map EvModelFinish _))
    by (apply Forall_forall; intros e He; apply in_map_iff in He;
        destruct He as (x & <- & _); reflexivity).
  rewrite (filter_none _ (commence_trace _))
    by (unfold commence_trace; destruct (do_zero_out_dram (self s));
        repeat constructor).
  unfold report_trace. simpl. rewrite ?app_nil_r. reflexivity.
Qed.

(** X6. The [init()], [tick()] and [finish()] calls that a run makes on
    one bridge driver, in the order they are made: [init()], then [tick()]
    some number of times, then [finish()]; the number of ticks is the same
    for every registered driver (the number of rounds of the inner loop),
    and none of the three is called on a driver that is not registered.  A
    driver registered [c] times gets each call [c] times over.  (The run
    also calls [terminate()] and [exit_code()] on the drivers; they are
    read-only and are not among the calls counted here.) *)
Theorem bridge_driver_lifecycle fuel s s' tr :
  run fuel s = Some (tt, s', tr) ->
  exists rounds, forall b,
      let c := count_occ Nat.eq_dec (bridges (self s)) b in
      bridge_calls b tr =
      repeat (EvBridgeInit b) c ++ repeat (EvBridgeTick b) (rounds * c)
      ++ repeat (EvBridgeFinish b) c.
Proof. exact (run_bridge_calls fuel s s' tr). Qed.

Lemma guarded_by_app p q a : forall seen b,
  guarded_by p q seen (a ++ b) =
  guarded_by p q seen a && guarded_by p q (seen || existsb p a) b.
Proof.
  induction a as [|e r IH]; intros seen b; simpl.
  - now rewrite orb_false_r.
  - rewrite IH. now rewrite <- andb_assoc, orb_assoc.
Qed.

Lemma guarded_by_none p q l : forall seen,
  Forall (fun e => q e = false) l -> guarded_by p q seen l = true.
Proof.
  induction l as [|e r IH]; intros seen H; simpl; [reflexivity|].
  inversion H as [|x l Hx Hl]; subst. rewrite Hx. simpl. now apply IH.
Qed.

Lemma guarded_by_seen p q l : guarded_by p q true l = true.
Proof.
  induction l as [|e r IH]; simpl; [reflexivity|].
  now rewrite orb_true_r, IH.
Qed.

Lemma guarded_by_sound p q pre : forall seen e post,
  guarded_by p q seen (pre ++ e :: post) = true -> q e = true ->
  seen = true \/ exists x, In x pre /\ p x = true.
Proof.
  induction pre as [|a r IH]; intros seen e post H Hq; simpl in H.
  - rewrite Hq in H. simpl in H. apply andb_true_iff in H. now left.
  - apply andb_true_iff in H. destruct H as [_ H].
    destruct (IH _ _ _ H Hq) as [Hs|(x & Hx & Hp)].
    + apply orb_true_iff in Hs. destruct Hs as [Hs|Hs]; [now left|].
      right. exists a. split; [now left|exact Hs].
    + right. exists x. split; [now right|exact Hp].
Qed.

Lemma guarded_by_preceded p q tr :
  guarded_by p q false tr = true -> preceded_by p q tr.
Proof.
  intros H pre e post -> Hq.
  destruct (guarded_by_sound _ _ _ _ _ _ H Hq) as [Hs|Hx];
    [discriminate|exact Hx].
Qed.

(** In the loop every tick follows a step. *)
Lemma loop_trace_guarded bs tr : forall seen,
  loop_trace bs tr -> guarded_by is_step is_tick seen tr = true.
Proof.
  intros seen (its & F & ->). revert seen.
  induction F as [|it r Hit _ IH]; intros seen; simpl; [reflexivity|].
  rewrite guarded_by_app, IH, andb_true_r.
  destruct Hit as (prof & n & k & Fp & ->).
  rewrite guarded_by_app. simpl.
  rewrite guarded_by_none
    by (eapply Forall_impl; [|exact Fp]; now intros []).
  now rewrite orb_true_r, guarded_by_seen.
Qed.

Lemma no_step_or_tick_outside_loop (q : event -> bool) t sh st w ok :
  (forall e, loop_event e \/ q e = false) ->
  Forall (fun e => q e = false) (init_trace t) /\
  Forall (fun e => q e = false) (commence_trace t) /\
  Forall (fun e => q e = false)
         (report_trace t sh st w ++ [EvExpect ok] ++ finish_trace t).
Proof.
  intros Hq.
  assert (G : forall e, ~ loop_event e -> q e = false)
    by (intros e He; destruct (Hq e); [contradiction|assumption]).
  split; [|split].
  - unfold init_trace. apply Forall_app. split; apply Forall_forall;
      intros e He; apply in_map_iff in He; destruct He as (x & <- & _);
      apply G; exact (fun F => F).
  - unfold commence_trace. destruct (do_zero_out_dram t);
      repeat constructor; apply G; exact (fun F => F).
  - unfold report_trace, finish_trace.
    repeat (apply Forall_cons; [apply G; exact (fun F => F)|]).
    apply Forall_app. split; apply Forall_forall;
      intros e He; apply in_map_iff in He; destruct He as (x & <- & _);
      apply G; exact (fun F => F).
Qed.

(** X7. In a run, the target is never stepped and no driver is ticked
    before [target_reset(50)], and no driver is ticked before the first
    [step()]. *)
Theorem no_tick_before_reset_and_step fuel s s' tr :
  run fuel s = Some (tt, s', tr) ->
  preceded_by is_reset is_step_or_tick tr /\
  preceded_by is_step is_tick tr.
Proof.
  intros H. apply run_inv in H.
  destruct H as (sh & st & loop_tr & sl & L & _ & _ & -> & _).
  split; apply guarded_by_preceded.
  - destruct (no_step_or_tick_outside_loop is_step_or_tick (self s) sh st (world sl)
                (final_exit_code (self s) (world sl) =? 0)) as (Q1 & Q2 & _).
    { intros []; simpl; auto. }
    rewrite guarded_by_app, (guarded_by_none _ _ _ _ Q1). simpl.
    rewrite guarded_by_app, (guarded_by_none _ _ _ _ Q2). simpl.
    assert (R : existsb is_reset (commence_trace (self s)) = true)
      by (unfold commence_trace; destruct (do_zero_out_dram (self s)); reflexivity).
    rewrite R, orb_true_r. apply guarded_by_seen.
  - destruct (no_step_or_tick_outside_loop is_tick (self s) sh st (world sl)
                (final_exit_code (self s) (world sl) =? 0)) as (Q1 & Q2 & Q3).
    { intros []; simpl; auto. }
    rewrite guarded_by_app, (guarded_by_none _ _ _ _ Q1). simpl.
    rewrite guarded_by_app, (guarded_by_none _ _ _ _ Q2). simpl.
    rewrite guarded_by_app, (loop_trace_guarded _ _ _ L). cbn [andb].
    apply guarded_by_none. exact Q3.
Qed.

(** X8. When, after the reset, a driver already asks to terminate or the
    timeout already holds, the loop body is not run at all: whatever the
    fuel (one unit is enough), the run returns, and its calls are the
    [init] calls, the lines before the loop and the reset, the report,
    [expect] and the [finish] calls, with no [step()], [tick()] or
    [profile()]. *)
Theorem run_stops_at_loop_entry fuel s starts s1 t :
  (run_init ;; run_commence) s = Some (starts, s1, t) ->
  any_terminate (bridges (self s)) (world s1)
  || sched_has_timed_out (max_cycles (self s)) (world s1) = true ->
  exists s',
    run (S fuel) s =
    Some (tt, s',
          init_trace (self s) ++ commence_trace (self s)
          ++ report_trace (self s) (fst starts) (snd starts) (world s1)
          ++ [EvExpect (final_exit_code (self s) (world s1) =? 0)]
          ++ finish_trace (self s)) /\
    t = init_trace (self s) ++ commence_trace (self s).
Proof.
  intros H Hstop.
  destruct (run_init_inv s) as (w1 & E1).
  rewrite (bind_eq _ _ _ _ _ _ E1) in H.
  set (s0 := mk_state (self s) w1) in *.
  destruct (run_commence_inv s0) as (sh & st & w2 & E2).
  rewrite E2 in H. inversion H; subst starts s1 t. clear H.
  simpl in Hstop |- *.
  set (s2 := mk_state (self s) w2) in *.
  assert (EL : main_loop (S fuel) s2 = Some (tt, s2, [])).
  { unfold main_loop. apply while_false. rewrite outer_cond_eq. simpl.
    apply orb_true_iff in Hstop. destruct Hstop as [-> | ->];
      [reflexivity|now rewrite andb_false_r]. }
  unfold run.
  rewrite (bind_eq _ _ _ _ _ _ E1).
  rewrite (bind_eq _ _ _ _ _ _ E2).
  rewrite (bind_eq _ _ _ _ _ _ EL).
  rewrite (bind_eq _ _ _ _ _ _ (run_report_eq _ _ s2)).
  set (s4 := mk_state (self s2) _).
  unfold bind at 1, expect at 1.
  set (s5 := mk_state _ (world s4)).
  destruct (run_finish_inv s5) as (w6 & E6). rewrite E6.
  eexists. split; [|reflexivity]. simpl. reflexivity.
Qed.

(** X11. With no bridge driver registered, the loop can end only by the
    timeout: in a run that returned, the timeout predicate held when the
    loop stopped, no bridge method was called, the exit code is 0 so
    [expect] is given true and the [pass] flag is unchanged, and the
    verdict line is FAILED (timeout) or PASSED according to the timeout
    predicate at the report, never FAILED (code). *)
Theorem run_without_bridges fuel s s' tr :
  bridges (self s) = [] ->
  run fuel s = Some (tt, s', tr) ->
  (forall b, bridge_calls b tr = []) /\
  pass (self s') = pass (self s) /\
  In (EvExpect true) tr /\
  exists w,
    sched_has_timed_out (max_cycles (self s)) w = true /\
    In (EvPrint (final_verdict (self s) w)) tr /\
    final_verdict (self s) w =
    if sched_has_timed_out (max_cycles (self s)) (report_world w)
    then MsgFailedTimeout (report_end_cycle w)
    else MsgPassed (report_end_cycle w).
Proof.
  intros Hb H.
  destruct (run_bridge_calls _ _ _ _ H) as (K & HK).
  apply run_inv in H.
  destruct H as (sh & st & loop_tr & sl & _ & _ & Hstop & -> & Hs).
  assert (Hc : final_exit_code (self s) (world sl) = 0)
    by (unfold final_exit_code; now rewrite Hb).
  rewrite Hb in Hstop. simpl in Hstop.
  split; [|split; [|split]].
  - intros b. rewrite HK, Hb. simpl. now rewrite Nat.mul_0_r.
  - rewrite Hs, Hc. simpl. apply andb_true_r.
  - rewrite Hc. rewrite !in_app_iff. right. right. right. right. left. now left.
  - exists (world sl). split; [exact Hstop|]. split.
    + rewrite !in_app_iff. right. right. right. left.
      unfold report_trace. right. now left.
    + unfold final_verdict. rewrite Hc, Hb. unfold verdict_of. simpl.
      now destruct (sched_has_timed_out _ _).
Qed.

(** X9. A report made with the target cycle counter at 0.  The speed is
    0 divided by a product, which is 0 or a NaN, so the report piece of
    [run] prints the KHz line whatever the elapsed time; its last line is
    the ratio of the host cycles to 0, which is a NaN when the host cycle
    counter has not moved either.  The same holds of a whole run whose
    loop stops in state [sl] with the counter at 0. *)
Theorem report_with_zero_cycles sh st s :
  let lines := fun (w : World) (sh st : Z) (verdict : message) =>
    let time := sim_diff_secs (report_end_time w) st in
    [EvPrint MsgNewline; EvPrint verdict;
     EvPrint (MsgSpeedKHz time (sim_speed_of 0 time));
     EvPrint (MsgFMR (ddiv (double_of_Z ((report_hcycle w - sh) mod 2 ^ 64))
                           (double_of_Z 0)))] in
  (report_end_cycle (world s) = 0 ->
   exists code s' verdict,
     run_report sh st s = Some (code, s', lines (world s) sh st verdict)) /\
  (forall h, ddiv (double_of_Z ((h - h) mod 2 ^ 64)) (double_of_Z 0) = S754_nan) /\
  (forall fuel starts s1 t0 sl loop_tr,
      (run_init ;; run_commence) s = Some (starts, s1, t0) ->
      main_loop fuel s1 = Some (tt, sl, loop_tr) ->
      report_end_cycle (world sl) = 0 ->
      exists s' verdict,
        run fuel s =
        Some (tt, s',
              t0 ++ loop_tr
              ++ lines (world sl) (fst starts) (snd starts) verdict
              ++ [EvExpect (final_exit_code (self s) (world sl) =? 0)]
              ++ finish_trace (self s))).
Proof.
  cbv zeta.
  assert (Hk : forall sim_time,
             speed_message sim_time (sim_speed_of 0 sim_time) =
             MsgSpeedKHz sim_time (sim_speed_of 0 sim_time)).
  { intros sim_time. unfold speed_message, sim_speed_of.
    change (double_of_Z 0) with (S754_zero false).
    destruct (dmul sim_time (double_of_Z 1000)) as [sx|sx| |sx mx ex];
      reflexivity. }
  split; [|split].
  - intros Hc. eexists _, _, _. rewrite run_report_eq. unfold report_trace.
    rewrite Hc, Hk. reflexivity.
  - intros h. now rewrite Z.sub_diag.
  - intros fuel starts s1 t0 sl loop_tr E0 E3 Hc.
    destruct (run_from_loop_end _ _ _ _ _ _ _ E0 E3) as (s' & E).
    eexists s', _. rewrite E. unfold report_trace.
    rewrite Hc, Hk. reflexivity.
Qed.

(** X10. Whether the profiling task is registered, in terms of the
    arguments: it is not when no argument starts with
    "+profile-interval="; otherwise, with [a] the last such argument, it is
    registered exactly when the [int] that [atoi] returns for the text
    after the prefix is not -1, and then the interval is that value.
    "+profile-interval=-1", and a number that [atoi] returns as -1, are
    the same as no argument. *)
Theorem profiling_registration_by_arguments argv build t :
  firesim_top_ctor argv build = Some t ->
  let is_prof := CStr.starts_with "+profile-interval=" in
  ((forall a, In a (tl argv) -> is_prof a = false) -> tasks t = []) /\
  (forall pre a post,
      tl argv = pre ++ a :: post -> is_prof a = true ->
      (forall x, In x post -> is_prof x = false) ->
      let v := CStr.atoi (CStr.c_str_plus 18 a) in
      profile_interval t = v /\
      (v = -1 -> tasks t = []) /\
      (v <> -1 -> tasks t = [mk_task ProfileModelsTask 0 true])).
Proof.
  intros Hc. cbv zeta.
  destruct (ctor_defined _ _ _ Hc) as (_ & ->).
  destruct (ctor_shape (tl argv) build) as ((_ & E2 & _) & _ & _ & _ & Ht).
  cbv zeta in E2, Ht.
  destruct (parse_args_setting profile_interval _ _ parse_arg_profile_interval
              (tl argv) top_initial) as [P1 P2].
  split.
  - intros H. rewrite Ht, E2, (P1 H). reflexivity.
  - intros pre a post Hargs Ha Hpost.
    pose proof (P2 pre a post Hargs Ha Hpost) as Hv.
    rewrite <- E2 in Hv. rewrite Ht, Hv. split; [reflexivity|]. split.
    + intros ->. reflexivity.
    + intros Hn. apply Z.eqb_neq in Hn. now rewrite Hn.
Qed.

End MoreRunProperties.

(** ** The added properties on the demo build and platform *)

Section MoreDemoRuns.

Import Build.

Lemma demo_registrations : exists r, registrations demo_config = Some r.
Proof. eexists. vm_compute. reflexivity. Defined.

Lemma host_mem_offsets_are_running_sums_witness :
  exists r,
    registrations demo_config = Some r /\
    nth_error (host_mem_offsets r) 0 = Some 0xFFFFFFFF80000000 /\
    nth_error (host_mem_offsets r) 1 = Some 0x380000000 /\
    nth_error (model_components (calls r)) 1 =
    Some (fased_model 2 (mk_fased 3 30) 0x380000000).
Proof.
  destruct demo_registrations as (r & E). exists r. split; [exact E|].
  destruct (host_mem_offsets_are_running_sums demo_config r E) as (_ & _ & Hk & _).
  destruct (Hk 0%nat 0%nat (mk_fased 1 34) eq_refl) as (H0 & _).
  destruct (Hk 1%nat 2%nat (mk_fased 3 30) eq_refl) as (H1 & H2).
  split; [exact H0|]. split; [exact H1|exact H2].
Defined.

Lemma serial_offset_is_by_position_witness :
  exists r,
    registrations demo_config = Some r /\
    exists h j m,
      nth_error (fased_slots demo_config) 1 = Some (j, m) /\ (1 <= j)%nat /\
      nth_error (host_mem_offsets r) 1 = Some h /\
      In (AddBridgeDriver (serial_t 1 h)) (calls r) /\
      nth_error (model_components (calls r)) 1 = Some (fased_model j m h).
Proof.
  destruct demo_registrations as (r & E). exists r. split; [exact E|].
  assert (Hi : (1 < 8)%nat) by lia.
  exact (proj2 (serial_offset_is_by_position demo_config) r 1%nat E Hi eq_refl).
Defined.

Lemma stats_files_are_distinct_witness :
  exists r,
    registrations demo_config = Some r /\
    NoDup (flat_map stats_file_of (model_components (calls r))).
Proof.
  destruct demo_registrations as (r & E). exists r.
  split; [exact E|exact (stats_files_are_distinct demo_config r E)].
Defined.

Lemma init_and_finish_follow_source_order_witness :
  exists s' tr,
    firesim_top_of_config ["firesim"%string] demo_config = Some demo_built /\
    run 20 s_built = Some (tt, s', tr) /\
    exists r,
      registrations demo_config = Some r /\
      map (component_at (calls r)) (bridge_inits tr)
      = map Some (bridge_components (calls r)) /\
      StronglySorted le (map source_rank (bridge_components (calls r))).
Proof.
  assert (Hc : firesim_top_of_config ["firesim"%string] demo_config = Some demo_built)
    by (vm_compute; reflexivity).
  assert (E : exists s' tr, run 20 s_built = Some (tt, s', tr))
    by (eexists _, _; vm_compute; reflexivity).
  destruct E as (s' & tr & E). exists s', tr.
  split; [exact Hc|]. split; [exact E|].
  destruct (init_and_finish_follow_source_order
              ["firesim"%string] demo_config demo_built 20
              (Demo.mk_world 0 15 [] 0) s' tr Hc E)
    as (r & Hr & _ & Hb & _ & _ & _ & Hs).
  exists r. split; [exact Hr|]. split; [exact Hb|exact Hs].
Defined.

Lemma bridge_driver_lifecycle_witness :
  exists s' tr rounds,
    run 20 Demo.s_pass = Some (tt, s', tr) /\
    forall b,
      let c := count_occ Nat.eq_dec (bridges (self Demo.s_pass)) b in
      bridge_calls b tr =
      repeat (EvBridgeInit b) c ++ repeat (EvBridgeTick b) (rounds * c)
      ++ repeat (EvBridgeFinish b) c.
Proof.
  assert (E : exists s' tr, run 20 Demo.s_pass = Some (tt, s', tr))
    by (eexists _, _; vm_compute; reflexivity).
  destruct E as (s' & tr & E).
  destruct (bridge_driver_lifecycle 20 Demo.s_pass s' tr E) as (rounds & H).
  exists s', tr, rounds. split; [exact E|exact H].
Defined.

Lemma no_tick_before_reset_and_step_witness :
  exists s' tr,
    run 20 Demo.s_pass = Some (tt, s', tr) /\
    preceded_by is_reset is_step_or_tick tr /\
    preceded_by is_step is_tick tr.
Proof.
  assert (E : exists s' tr, run 20 Demo.s_pass = Some (tt, s', tr))
    by (eexists _, _; vm_compute; reflexivity).
  destruct E as (s' & tr & E). exists s', tr.
  split; [exact E|exact (no_tick_before_reset_and_step 20 Demo.s_pass s' tr E)].
Defined.

Lemma run_stops_at_loop_entry_witness :
  exists starts s1 t s',
    (run_init ;; run_commence) s_stopped_at_entry = Some (starts, s1, t) /\
    any_terminate (bridges (self s_stopped_at_entry)) (world s1) = true /\
    run 1 s_stopped_at_entry =
    Some (tt, s',
          init_trace (self s_stopped_at_entry)
          ++ commence_trace (self s_stopped_at_entry)
          ++ report_trace (self s_stopped_at_entry) (fst starts) (snd starts) (world s1)
          ++ [EvExpect (final_exit_code (self s_stopped_at_entry) (world s1) =? 0)]
          ++ finish_trace (self s_stopped_at_entry)).
Proof.
  assert (E : exists starts s1 t,
             (run_init ;; run_commence) s_stopped_at_entry = Some (starts, s1, t)
             /\ any_terminate (bridges (self s_stopped_at_entry)) (world s1) = true).
  { eexists _, _, _. split; vm_compute; reflexivity. }
  destruct E as (starts & s1 & t & E & Ht).
  assert (Hstop : any_terminate (bridges (self s_stopped_at_entry)) (world s1)
                  || sched_has_timed_out (max_cycles (self s_stopped_at_entry))
                                         (world s1) = true)
    by (rewrite Ht; reflexivity).
  destruct (run_stops_at_loop_entry 0 s_stopped_at_entry starts s1 t E Hstop)
    as (s' & Hrun & _).
  exists starts, s1, t, s'. split; [exact E|]. split; [exact Ht|exact Hrun].
Defined.

Lemma report_with_zero_cycles_witness :
  exists s' verdict time,
    run 1 s_stopped_at_entry =
    Some (tt, s',
          [EvModelInit 7%nat; EvBridgeInit 0%nat; EvBridgeInit 1%nat;
           EvPrint MsgCommencing; EvTargetReset 50]
          ++ []
          ++ [EvPrint MsgNewline; EvPrint verdict;
              EvPrint (MsgSpeedKHz time S754_nan); EvPrint (MsgFMR S754_nan)]
          ++ [EvExpect true]
          ++ [EvModelFinish 7%nat; EvBridgeFinish 0%nat; EvBridgeFinish 1%nat]).
Proof.
  destruct (report_with_zero_cycles 0 0 s_stopped_at_entry) as (_ & _ & R).
  edestruct (R 1%nat) as (s' & verdict & E).
  { vm_compute. reflexivity. }
  { vm_compute. reflexivity. }
  { reflexivity. }
  eexists s', verdict, _. exact E.
Defined.

Lemma profiling_registration_by_arguments_witness :
  firesim_top_ctor ["firesim"; "+profile-interval=4294967295"]%string []
  = Some (firesim_top_body ["+profile-interval=4294967295"]%string []) /\
  profile_interval (firesim_top_body ["+profile-interval=4294967295"]%string []) = -1 /\
  tasks (firesim_top_body ["+profile-interval=4294967295"]%string []) = [].
Proof.
  assert (Hc : firesim_top_ctor ["firesim"; "+profile-interval=4294967295"]%string []
               = Some (firesim_top_body ["+profile-interval=4294967295"]%string []))
    by reflexivity.
  split; [exact Hc|].
  destruct (proj2 (profiling_registration_by_arguments _ _ _ Hc)
                  [] "+profile-interval=4294967295"%string [] eq_refl eq_refl
                  (fun x (H : In x []) => match H with end))
    as (Hv & Hd & _).
  split; [|apply Hd]; vm_compute; reflexivity.
Defined.

Lemma run_without_bridges_witness :
  bridges (self s_no_bridges) = [] /\
  exists s' tr,
    run 20 s_no_bridges = Some (tt, s', tr) /\
    (forall b, bridge_calls b tr = []) /\
    pass (self s') = pass (self s_no_bridges) /\
    In (EvExpect true) tr.
Proof.
  assert (Hb : bridges (self s_no_bridges) = []) by reflexivity.
  split; [exact Hb|].
  assert (E : exists s' tr, run 20 s_no_bridges = Some (tt, s', tr))
    by (eexists _, _; vm_compute; reflexivity).
  destruct E as (s' & tr & E). exists s', tr. split; [exact E|].
  destruct (run_without_bridges 20 s_no_bridges s' tr Hb E) as (H1 & H2 & H3 & _).
  split; [exact H1|]. split; [exact H2|exact H3].
Defined.

End MoreDemoRuns.
